(** * cassandra_snapshotter: backup and restore orchestration

    A shallow embedding of [cassandra_snapshotter/snapshotting.py]
    (Python 2) and the properties of its specification.

    Conventions of the embedding.
    - Python values that travel through manifests are a small universe
      [pyval] (None, integers, strings, lists).  JSON booleans, floats and
      nested objects never occur in a manifest written by this program and
      are outside the universe.
    - Python exceptions are a sum [res]; code that talks to the outside
      world (remote commands, the object store, the file system) runs in a
      state monad [M] whose state survives a raised exception, as the
      mutations of a Python object do.
    - External collaborators (json, datetime/time, fabric, boto, snappy)
      are parameters: a codec, a clock parser, or an environment answering
      each call from the history of calls made so far. *)

From Stdlib Require Import ZArith Ascii String List Lia Bool DecimalString Sorted Permutation.
From stdpp Require Import base option list strings gmap.
From Equations Require Import Equations.

Open Scope string_scope.
Open Scope Z_scope.
Set Warnings "-register-all".

(* ===================================================================== *)
(** ** Exceptions and the effect monad                                    *)
(* ===================================================================== *)

Module Py.

(** The exception classes the embedded code raises or distinguishes.
    [NonException] stands for the classes that do not derive from
    [Exception] (SystemExit, which fabric's abort raises, and
    KeyboardInterrupt): [except Exception] lets them through, a bare
    [except:] catches them. *)
Inductive exn : Type :=
| ValueError
| TypeError
| KeyError
| IndexError
| AttributeError
| ZeroDivisionError
| S3ResponseError
| OtherException (tag : string)
| NonException (tag : string).

Definition is_Exception (e : exn) : bool :=
  match e with
  | NonException _ => false
  | _ => true
  end.

Inductive res (A : Type) : Type :=
| Ret (a : A)
| Raise (e : exn).
Arguments Ret {A} a.
Arguments Raise {A} e.

Definition res_bind {A B} (r : res A) (k : A -> res B) : res B :=
  match r with
  | Ret a => k a
  | Raise e => Raise e
  end.

Definition returns {A} (r : res A) : Prop := exists a, r = Ret a.

(** Stateful computations; the state is kept when an exception is raised. *)
Definition M (S A : Type) : Type := S -> res A * S.

Definition ret {S A} (a : A) : M S A := fun s => (Ret a, s).
Definition raise {S A} (e : exn) : M S A := fun s => (Raise e, s).
Definition lift {S A} (r : res A) : M S A := fun s => (r, s).
Definition get {S} : M S S := fun s => (Ret s, s).
Definition put {S} (s : S) : M S unit := fun _ => (Ret tt, s).

Definition bind {S A B} (m : M S A) (k : A -> M S B) : M S B :=
  fun s =>
    match m s with
    | (Ret a, s') => k a s'
    | (Raise e, s') => (Raise e, s')
    end.

(** [try: m except <classes>: h].  [catches] selects the classes of the
    clause; a bare [except:] is [fun _ => true]. *)
Definition try_except {S A} (m : M S A) (catches : exn -> bool)
    (h : exn -> M S A) : M S A :=
  fun s =>
    match m s with
    | (Ret a, s') => (Ret a, s')
    | (Raise e, s') => if catches e then h e s' else (Raise e, s')
    end.

(** [try: m finally: f].  An exception of the [finally] block replaces
    the outcome of the body; otherwise the body's outcome stands. *)
Definition try_finally {S A} (m : M S A) (f : M S unit) : M S A :=
  fun s =>
    match m s with
    | (r, s') =>
        match f s' with
        | (Ret _, s'') => (r, s'')
        | (Raise e, s'') => (Raise e, s'')
        end
    end.

Definition when {S} (b : bool) (m : M S unit) : M S unit :=
  if b then m else ret tt.

(** [for x in l: body x] *)
Fixpoint for_each {S A} (l : list A) (body : A -> M S unit) : M S unit :=
  match l with
  | [] => ret tt
  | x :: l' => bind (body x) (fun _ => for_each l' body)
  end.

End Py.
Import Py.

Declare Scope py_scope.
Delimit Scope py_scope with py.
Notation "x <~ m ;; k" := (bind m (fun x => k))
  (at level 100, m at next level, right associativity) : py_scope.
Notation "m ;;; k" := (bind m (fun _ => k))
  (at level 100, right associativity) : py_scope.
Open Scope py_scope.

(* ===================================================================== *)
(** ** Python values and string operations                               *)
(* ===================================================================== *)

Inductive pyval : Type :=
| PyNone
| PyInt (z : Z)
| PyStr (s : string)
| PyList (l : list pyval).

(** Truth value of an object in a condition ([if x:], [not x]). *)
Definition truthy (v : pyval) : bool :=
  match v with
  | PyNone => false
  | PyInt z => negb (z =? 0)
  | PyStr s => negb (String.eqb s "")
  | PyList l => match l with [] => false | _ => true end
  end.

(** [a == b] on this universe is structural. *)
Fixpoint py_eq (a b : pyval) {struct a} : bool :=
  match a, b with
  | PyNone, PyNone => true
  | PyInt x, PyInt y => x =? y
  | PyStr s, PyStr t => String.eqb s t
  | PyList l, PyList m =>
      (fix all2 (l m : list pyval) {struct l} : bool :=
         match l, m with
         | [], [] => true
         | x :: l', y :: m' => py_eq x y && all2 l' m'
         | _, _ => false
         end) l m
  | _, _ => false
  end.

Definition py_ne (a b : pyval) : bool := negb (py_eq a b).

(** [s.endswith(suffix)] *)
Definition endswith (s suffix : string) : bool :=
  let n := String.length s in
  let m := String.length suffix in
  (m <=? n)%nat && String.eqb (substring (n - m) m s) suffix.

(** [s.startswith(p)] *)
Definition startswith (s p : string) : bool := String.prefix p s.

(** [sep.join(l)] *)
Fixpoint str_join (sep : string) (l : list string) : string :=
  match l with
  | [] => ""
  | [x] => x
  | x :: l' => x +:+ sep +:+ str_join sep l'
  end.

(** [s.split(c)] for a one-character separator: the pieces between the
    occurrences of [c]; [''.split(c)] is [['']]. *)
Fixpoint str_split (c : ascii) (s : string) : list string :=
  match s with
  | EmptyString => [""]
  | String a s' =>
      if Ascii.eqb a c then "" :: str_split c s'
      else match str_split c s' with
           | [] => [String a ""]
           | p :: ps => String a p :: ps
           end
  end.

Definition is_space (a : ascii) : bool :=
  let n := nat_of_ascii a in
  ((9 <=? n) && (n <=? 13) || (n =? 32))%nat.

(** [s.split()]: the maximal runs of non-whitespace characters. *)
Fixpoint str_words_aux (cur : option string) (s : string) : list string :=
  match s with
  | EmptyString => match cur with None => [] | Some w => [w] end
  | String a s' =>
      if is_space a then
        match cur with
        | None => str_words_aux None s'
        | Some w => w :: str_words_aux None s'
        end
      else
        str_words_aux (Some (match cur with None => String a "" | Some w => w +:+ String a "" end)) s'
  end.
Definition str_words (s : string) : list string := str_words_aux None s.

(** [path.split(sep)[-1]]: what follows the last separator. *)
Definition last_component (sep : ascii) (path : string) : string :=
  List.last (str_split sep path) "".

(** [os.path.join(a, *p)] of posixpath. *)
Definition os_path_join2 (path b : string) : string :=
  if startswith b "/" then b
  else if String.eqb path "" || endswith path "/" then path +:+ b
  else path +:+ "/" +:+ b.
Definition os_path_join (a : string) (p : list string) : string :=
  fold_left os_path_join2 p a.

(** Operations that need a [str] receiver or operand. *)
Definition as_str (e : exn) (v : pyval) : res string :=
  match v with
  | PyStr s => Ret s
  | _ => Raise e
  end.

(** ['/'.join([a, b, ...])] on arbitrary objects: a [TypeError] unless
    every item is a string. *)
Fixpoint py_join_slash (l : list pyval) : res string :=
  match l with
  | [] => Ret ""
  | v :: l' =>
      res_bind (as_str TypeError v) (fun s =>
      match l' with
      | [] => Ret s
      | _ => res_bind (py_join_slash l') (fun r => Ret (s +:+ "/" +:+ r))
      end)
  end.

Example str_split_ex : str_split "," "ks1,,ks2" = ["ks1"; ""; "ks2"].
Proof. reflexivity. Qed.
Example str_words_ex : str_words (" /a/backups" +:+ String "010" "/b/backups  ") = ["/a/backups"; "/b/backups"].
Proof. reflexivity. Qed.
Example os_path_join_ex :
  os_path_join "." ["ks"; "cf"; "h_f.db"] = "./ks/cf/h_f.db"
  /\ os_path_join "/var/lib/cassandra/data/" ["ks1"] = "/var/lib/cassandra/data/ks1"
  /\ os_path_join "a" [""; "b"] = "a/b"
  /\ os_path_join "" ["b"] = "b"
  /\ os_path_join "a" ["/b"] = "/b".
Proof. repeat split. Qed.
Example last_component_ex : last_component "/" "a/b/c.db" = "c.db".
Proof. reflexivity. Qed.

(* ===================================================================== *)
(** ** External collaborators                                            *)
(* ===================================================================== *)

(** What [json.loads] can return at top level: an object, kept as a finite
    map from its keys, or any other value. *)
Inductive document : Type :=
| DocDict (d : gmap string pyval)
| DocValue (v : pyval).

(** [doc[key]]: a [KeyError] for a missing key, a [TypeError] when the
    document is not an object. *)
Definition getitem (doc : document) (key : string) : res pyval :=
  match doc with
  | DocDict d =>
      match d !! key with
      | Some v => Ret v
      | None => Raise KeyError
      end
  | DocValue _ => Raise TypeError
  end.

(** The [json] module. *)
Class JsonCodec : Type := {
  json_dumps : document -> res string;
  json_loads : string -> res document
}.

(** [time.mktime(datetime.strptime(name, format).timetuple())], in whole
    seconds; it raises when [name] does not match [format]. *)
Class Clock : Type := {
  strptime_mktime : string -> string -> res Z
}.

(** A bucket of the object store: [bucket.list(prefix, delimiter='/')]
    gives the names of the entries, [Key.get_contents_as_string] the
    content of a key; both can raise. *)
Record Bucket : Type := {
  list_names : string -> res (list string);
  get_contents_as_string : string -> res string
}.

(** [S3Connection(...).get_bucket(name, validate=False)] *)
Class ObjectStore : Type := {
  get_bucket : string -> Bucket
}.

(** [datetime.utcnow().strftime(format)] at the moment a snapshot object
    is made. *)
Class Now : Type := {
  utcnow_strftime : string -> string
}.

(* ===================================================================== *)
(** ** class Snapshot                                                    *)
(* ===================================================================== *)

Module Snapshot.

Record t : Type := mk {
  s3_bucket : string;
  name : pyval;
  hosts : pyval;
  keyspaces : pyval;
  table : pyval;
  _base_path : pyval
}.

Definition SNAPSHOT_TIMESTAMP_FORMAT : string := "%Y%m%d%H%M%S".

(** The dictionary [dump_manifest_file] builds. *)
Definition manifest_data (self : t) : gmap string pyval :=
  <["name" := name self]>
  (<["base_path" := _base_path self]>
  (<["hosts" := hosts self]>
  (<["keyspaces" := keyspaces self]>
  (<["table" := table self]> ∅)))).

Definition dump_manifest_file `{JsonCodec} (self : t) : res string :=
  json_dumps (DocDict (manifest_data self)).

(** The constructor stamps the new object with the current time; the
    stamp is overwritten by the manifest's name before the object is
    returned, so the clock does not appear here. *)
Definition load_manifest_file `{JsonCodec} (data : string) (s3_bucket : string) : res t :=
  res_bind (json_loads data) (fun manifest_data =>
  res_bind (getitem manifest_data "base_path") (fun base_path =>
  res_bind (getitem manifest_data "hosts") (fun hosts =>
  res_bind (getitem manifest_data "keyspaces") (fun keyspaces =>
  res_bind (getitem manifest_data "table") (fun table =>
  res_bind (getitem manifest_data "name") (fun name =>
  Ret (mk s3_bucket name hosts keyspaces table base_path))))))).

(** The [base_path] property. *)
Definition base_path (self : t) : res string :=
  py_join_slash [_base_path self; name self].

Definition unix_time_name `{Clock} (self : t) : res Z :=
  res_bind (as_str TypeError (name self)) (fun n =>
  res_bind (strptime_mktime n SNAPSHOT_TIMESTAMP_FORMAT) (fun seconds =>
  Ret (seconds * 1000))).

Definition __cmp__ `{Clock} (self other : t) : res Z :=
  res_bind (unix_time_name self) (fun a =>
  res_bind (unix_time_name other) (fun b =>
  Ret (a - b))).

(** [x < y] between two snapshots, as the sort asks it. *)
Definition lt `{Clock} (x y : t) : res bool :=
  res_bind (__cmp__ x y) (fun c => Ret (c <? 0)).

Definition make_snapshot_name `{Now} : string :=
  utcnow_strftime SNAPSHOT_TIMESTAMP_FORMAT.

(** [Snapshot(base_path, s3_bucket, hosts, keyspaces, table)] *)
Definition __init__ `{Now} (base_path : pyval) (s3_bucket : string)
    (hosts keyspaces table : pyval) : t :=
  mk s3_bucket (PyStr make_snapshot_name) hosts keyspaces table base_path.

End Snapshot.

(** *** [sorted(l, reverse=True)] on snapshots

    The list sort is stable; with [reverse=True] the list is reversed,
    sorted in ascending order and reversed again.  It asks only [x < y].
    A list of fewer than two elements is returned without any comparison;
    otherwise every element takes part in a comparison, so a name that
    cannot be parsed raises out of the whole call.  (When several names
    fail, the exception of the first one in list order is reported; no
    statement below depends on which one it is.) *)
Section Sorting.
Context {A : Type} (key : A -> Z).

Fixpoint insert_by (x : A) (l : list A) : list A :=
  match l with
  | [] => [x]
  | y :: l' => if key y <? key x then y :: insert_by x l' else x :: y :: l'
  end.

Fixpoint stable_sort_by (l : list A) : list A :=
  match l with
  | [] => []
  | x :: l' => insert_by x (stable_sort_by l')
  end.

Definition key_le (a b : A) : Prop := key a <= key b.
Definition key_ge (a b : A) : Prop := key b <= key a.
End Sorting.

Fixpoint res_map {A B} (f : A -> res B) (l : list A) : res (list B) :=
  match l with
  | [] => Ret []
  | x :: l' =>
      res_bind (f x) (fun y =>
      res_bind (res_map f l') (fun ys => Ret (y :: ys)))
  end.

Definition sorted_reverse `{Clock} (l : list Snapshot.t) : res (list Snapshot.t) :=
  if (length l <? 2)%nat then Ret l
  else
    res_bind (res_map Snapshot.unix_time_name l) (fun keys =>
    Ret (map snd (rev (stable_sort_by fst (rev (combine keys l)))))).

(* ===================================================================== *)
(** ** class SnapshotCollection                                          *)
(* ===================================================================== *)

Module SnapshotCollection.

(** The object; [snapshots] is [None] until the first population. *)
Record t : Type := mk {
  s3_bucket : string;
  base_path : string;
  snapshots : option (list Snapshot.t)
}.

(** [SnapshotCollection(key_id, secret, base_path, s3_bucket)] *)
Definition __init__ (base_path s3_bucket : string) : t :=
  mk s3_bucket base_path None.

(** The requests sent to the object store, in order. *)
Inductive s3_call : Type :=
| S3List (bucket prefix : string)
| S3Get (bucket key : string).

Definition is_list (c : s3_call) : bool :=
  match c with S3List _ _ => true | S3Get _ _ => false end.

(** The object together with the log of requests made so far. *)
Definition state : Type := t * list s3_call.

Definition self_ : M state t := fun st => (Ret (fst st), st).

Definition set_snapshots (v : list Snapshot.t) : M state unit :=
  fun st => (Ret tt, (mk (s3_bucket (fst st)) (base_path (fst st)) (Some v), snd st)).

(** [self.snapshots.append(s)] *)
Definition append_snapshot (s : Snapshot.t) : M state unit :=
  fun st =>
    match snapshots (fst st) with
    | Some l => (Ret tt, (mk (s3_bucket (fst st)) (base_path (fst st)) (Some (l ++ [s])%list), snd st))
    | None => (Raise AttributeError, st)
    end.

Definition request {A} (c : s3_call) (answer : res A) : M state A :=
  fun st => (answer, (fst st, (snd st ++ [c])%list)).

(** [if self.snapshots:] is false for [None] and for the empty list. *)
Definition cached (self : t) : bool :=
  match snapshots self with
  | Some (_ :: _) => true
  | _ => false
  end.

Definition is_S3ResponseError (e : exn) : bool :=
  match e with S3ResponseError => true | _ => false end.

Section Methods.
Context `{JsonCodec} `{Clock} `{ObjectStore}.

(** The body of the [for snap_path in snap_paths] loop. *)
Definition read_manifest (bucket_name : string) (snap_path : string) : M state unit :=
  let bucket := get_bucket bucket_name in
  let manifest_path := str_join "/" [snap_path; "manifest.json"] in
  fetched <~ try_except
               (data <~ request (S3Get bucket_name manifest_path)
                                (get_contents_as_string bucket manifest_path) ;;
                ret (Some data))
               is_S3ResponseError
               (fun _ => ret None) ;;
  match fetched with
  | None => ret tt
  | Some manifest_data =>
      try_except
        (snapshot <~ lift (Snapshot.load_manifest_file manifest_data bucket_name) ;;
         append_snapshot snapshot)
        is_Exception
        (fun _ => ret tt)
  end.

Definition _read_s3 : M state unit :=
  self <~ self_ ;;
  if cached self then ret tt
  else
    let bucket := get_bucket (s3_bucket self) in
    set_snapshots [] ;;;
    let s3prefix :=
      if negb (endswith (base_path self) "/") then base_path self +:+ "/"
      else base_path self in
    snap_paths <~ request (S3List (s3_bucket self) s3prefix)
                          (list_names bucket s3prefix) ;;
    let snap_paths := filter (fun x => negb (String.eqb x s3prefix)) snap_paths in
    for_each snap_paths (read_manifest (s3_bucket self)) ;;;
    self <~ self_ ;;
    sorted <~ lift (sorted_reverse (default [] (snapshots self))) ;;
    set_snapshots sorted.

(** [iter(self.snapshots)] after population: the cached list. *)
Definition __iter__ : M state (list Snapshot.t) :=
  _read_s3 ;;;
  self <~ self_ ;;
  match snapshots self with
  | Some l => ret l
  | None => raise TypeError
  end.

(** [snapshots and snapshots[0]]: the first snapshot of that name, or
    the empty (false) list, here [None]. *)
Definition get_snapshot_by_name (name : pyval) : M state (option Snapshot.t) :=
  l <~ __iter__ ;;
  let snapshots := filter (fun s => py_eq (Snapshot.name s) name) l in
  ret (head snapshots).

Definition get_latest : M state Snapshot.t :=
  _read_s3 ;;;
  self <~ self_ ;;
  match snapshots self with
  | Some (s :: _) => ret s
  | Some [] => raise IndexError
  | None => raise TypeError
  end.

(** The loop of [get_snapshot_for]; falling off its end returns [None]. *)
Fixpoint first_compatible (hosts keyspaces table : pyval) (l : list Snapshot.t)
    : option Snapshot.t :=
  match l with
  | [] => None
  | snapshot :: rest =>
      if py_ne (Snapshot.hosts snapshot) hosts then first_compatible hosts keyspaces table rest
      else if py_ne (Snapshot.keyspaces snapshot) keyspaces then first_compatible hosts keyspaces table rest
      else if py_ne (Snapshot.table snapshot) table then first_compatible hosts keyspaces table rest
      else Some snapshot
  end.

Definition get_snapshot_for (hosts keyspaces table : pyval) : M state (option Snapshot.t) :=
  l <~ __iter__ ;;
  ret (first_compatible hosts keyspaces table l).

End Methods.

(** The ways a caller reads the collection. *)
Inductive access : Type :=
| GetLatest
| GetSnapshotFor (hosts keyspaces table : pyval)
| GetSnapshotByName (name : pyval)
| Iterate.

(** One access; its value is dropped, its outcome kept. *)
Definition perform `{JsonCodec} `{Clock} `{ObjectStore} (a : access) : M state unit :=
  match a with
  | GetLatest => get_latest ;;; ret tt
  | GetSnapshotFor h k t => get_snapshot_for h k t ;;; ret tt
  | GetSnapshotByName n => get_snapshot_by_name n ;;; ret tt
  | Iterate => __iter__ ;;; ret tt
  end.

(** A sequence of accesses by a caller that carries on after a failed
    one (it may catch the exception). *)
Fixpoint perform_all `{JsonCodec} `{Clock} `{ObjectStore} (l : list access) (st : state) : state :=
  match l with
  | [] => st
  | a :: l' => perform_all l' (snd (perform a st))
  end.

End SnapshotCollection.

(* ===================================================================== *)
(** ** download_snappy_key                                               *)
(* ===================================================================== *)

Definition MAX_RETRY_COUNT : nat := 3.

(** A boto key, as far as this code reads it. *)
Record S3Key : Type := {
  key_name : string;
  key_size : Z
}.

(** What the restore does to the outside world.  [Fetch] is one pass
    through the body of the [try] of [download_snappy_key]: open the
    destination, stream the key through the decompressor, flush. *)
Inductive io : Type :=
| Fetch (key dst : string)
| Copy2 (src dst : string)
| GetSize (path : string)
| StderrWrite (read_bytes total_size : Z).

(** The world answers each operation from the history of operations. *)
Class World : Type := {
  answer : list io -> io -> res Z
}.

Definition perform_io `{World} (op : io) : M (list io) Z :=
  fun history => (answer history op, (history ++ [op])%list).

(** The [while retry_count < MAX_RETRY_COUNT] loop.  Leaving the loop by
    its condition would make the function return [None]. *)
Equations? download_loop `{World} (key : S3Key) (dst : string) (retry_count : nat)
    : M (list io) pyval by wf (MAX_RETRY_COUNT - retry_count)%nat lt :=
  download_loop key dst retry_count with lt_dec retry_count MAX_RETRY_COUNT := {
    | left Hlt =>
        try_except
          (perform_io (Fetch (key_name key) dst) ;;;
           ret (PyInt (key_size key)))
          is_Exception
          (fun e =>
             if (MAX_RETRY_COUNT <=? S retry_count)%nat then raise e
             else download_loop key dst (S retry_count))
    | right _ => ret PyNone
  }.
Proof. unfold MAX_RETRY_COUNT in *. lia. Qed.

Definition download_snappy_key `{World} (key : S3Key) (dst : string) : M (list io) pyval :=
  download_loop key dst 0%nat.

(* ===================================================================== *)
(** ** class RestoreWorker                                               *)
(* ===================================================================== *)

Module RestoreWorker.

(** The compiled [keyspace_table_matcher], the pattern
    [(h1|h2|...).*/(keyspace)/(table)/].  The embedding covers hosts,
    keyspace and table free of regular-expression metacharacters, so
    that each of them matches itself and nothing else; [table = None] is
    the pattern [.*?] that [_restore] substitutes for an empty table. *)
Record matcher : Type := {
  alt_hosts : list string;
  pat_keyspace : string;
  pat_table : option string
}.

(** [re.compile(matcher_string)] in [_restore]. *)
Definition compile_matcher (hosts : list string) (keyspace table : string) : matcher :=
  {| alt_hosts := match hosts with [] => [""] | _ => hosts end;
     pat_keyspace := keyspace;
     pat_table := if String.eqb table "" then None else Some table |}.

(** The three groups of a match. *)
Record groups : Type := {
  group1 : string;
  group2 : string;
  group3 : string
}.

Definition is_newline (a : ascii) : bool := Ascii.eqb a "010".
Definition is_slash (a : ascii) : bool := Ascii.eqb a "/".

Fixpoint drop_chars (n : nat) (s : string) : string :=
  match n, s with
  | O, _ => s
  | S n', String _ s' => drop_chars n' s'
  | S _, EmptyString => EmptyString
  end.

(** [(.*?)/] at the end of the pattern: the shortest run of characters
    other than a newline that a slash follows. *)
Fixpoint lazy_segment (s : string) : option string :=
  match s with
  | EmptyString => None
  | String a s' =>
      if is_slash a then Some EmptyString
      else if is_newline a then None
      else option_map (String a) (lazy_segment s')
  end.

(** [/(keyspace)/(table)/] at the head of [s]; the result is group 3. *)
Definition match_tail (m : matcher) (s : string) : option string :=
  let lead := "/" +:+ pat_keyspace m +:+ "/" in
  if String.prefix lead s then
    let rest := drop_chars (String.length lead) s in
    match pat_table m with
    | Some t => if String.prefix (t +:+ "/") rest then Some t else None
    | None => lazy_segment rest
    end
  else None.

(** [.*] followed by the tail: greedy, the longest run of characters
    other than a newline is tried first, then shorter ones. *)
Fixpoint greedy_tail (m : matcher) (s : string) : option string :=
  match s with
  | EmptyString => match_tail m s
  | String a s' =>
      if is_newline a then match_tail m s
      else match greedy_tail m s' with
           | Some g => Some g
           | None => match_tail m s
           end
  end.

(** The alternation at the head of [s]: the alternatives are tried in
    the order of the host list. *)
Fixpoint match_hosts (m : matcher) (alts : list string) (s : string) : option groups :=
  match alts with
  | [] => None
  | h :: alts' =>
      if String.prefix h s then
        match greedy_tail m (drop_chars (String.length h) s) with
        | Some g3 => Some {| group1 := h; group2 := pat_keyspace m; group3 := g3 |}
        | None => match_hosts m alts' s
        end
      else match_hosts m alts' s
  end.

(** [matcher.search(s)]: the match at the leftmost position that has one. *)
Fixpoint search (m : matcher) (s : string) : option groups :=
  match match_hosts m (alt_hosts m) s with
  | Some r => Some r
  | None =>
      match s with
      | EmptyString => None
      | String _ s' => search m s'
      end
  end.

(** The object.  [local_source] is a path, or empty (false) when the
    source is the object store. *)
Record t : Type := mk {
  snapshot : option Snapshot.t;
  keyspace_table_matcher : option matcher;
  local_source : string;
  merge_dir : string;
  path_separator : ascii
}.

Definition dst_from_key (self : t) (path : string) : res string :=
  match keyspace_table_matcher self with
  | None => Raise AttributeError
  | Some matcher =>
      match search matcher path with
      | None => Raise AttributeError
      | Some r =>
          let merge_name := group1 r +:+ "_" +:+ last_component (path_separator self) path in
          let dst := os_path_join (merge_dir self) [group2 r; group3 r; merge_name] in
          Ret dst
      end
  end.

Section Transfer.
Context `{World}.

Definition _copy_key (self : t) (key : string) : M (list io) pyval :=
  dst <~ lift (dst_from_key self key) ;;
  perform_io (Copy2 key dst) ;;;
  size <~ perform_io (GetSize key) ;;
  ret (PyInt size).

Definition _download_key (self : t) (key : S3Key) : M (list io) pyval :=
  dst <~ lift (dst_from_key self (key_name key)) ;;
  download_snappy_key key dst ;;;
  ret PyNone.

(** [read_bytes += size] *)
Definition iadd (read_bytes : Z) (size : pyval) : res Z :=
  match size with
  | PyInt n => Ret (read_bytes + n)
  | _ => Raise TypeError
  end.

(** [for size in thread_pool.imap(meth, keys): ...].  [imap] hands the
    results over in the order of [keys]; the embedding runs the items
    one at a time, each when its result is asked for.  The progress
    line divides by [float(total_size)]. *)
Fixpoint progress_loop {K} (meth : K -> M (list io) pyval) (keys : list K)
    (total_size read_bytes : Z) : M (list io) unit :=
  match keys with
  | [] => ret tt
  | key :: keys' =>
      size <~ meth key ;;
      read_bytes <~ lift (iadd read_bytes size) ;;
      (if total_size =? 0 then raise ZeroDivisionError else ret tt) ;;;
      perform_io (StderrWrite read_bytes total_size) ;;;
      progress_loop meth keys' total_size read_bytes
  end.

(** [_download_keys] when [self.local_source] is set: the keys are
    paths and [meth] is [_copy_key]. *)
Definition _download_keys_local (self : t) (keys : list string) (total_size : Z)
    : M (list io) unit :=
  progress_loop (_copy_key self) keys total_size 0.

(** [_download_keys] otherwise: the keys are boto keys and [meth] is
    [_download_key]. *)
Definition _download_keys_s3 (self : t) (keys : list S3Key) (total_size : Z)
    : M (list io) unit :=
  progress_loop (_download_key self) keys total_size 0.

End Transfer.

(** [get_bucket(name).list(prefix)]: the keys under a prefix, with their
    sizes; and the files that [os.walk] finds under a directory, as the
    paths [os.path.join(root, filename)]. *)
Class KeyListing : Type := {
  bucket_list : string -> string -> res (list S3Key)
}.







End RestoreWorker.

(* ===================================================================== *)
(** ** class BackupWorker                                                *)
(* ===================================================================== *)

Module BackupWorker.

(** The configuration the modelled methods read. *)
Record t : Type := mk {
  cassandra_data_path : string;
  nodetool_path : string;
  cassandra_cli_path : string;
  backup_schema : bool
}.

Definition ALL_SNAPSHOTS : string := "__ALL_SNAPSHOTS__".

(** The per-node tasks that fabric's [execute] fans out. *)
Inductive node_task : Type :=
| NodeStartBackup (snapshot : Snapshot.t) (incremental_backups : bool)
| UploadNodeBackups (snapshot : Snapshot.t) (incremental_backups : bool)
| ClearNodeBackups (snapshot : Snapshot.t)
| ClearNodeSnapshot (snapshot_name : pyval).

(** What the worker does to the outside world.  [Execute task] is one
    cluster-wide step: [execute(task, ...)] under
    [settings(parallel=True, pool_size=...)], which returns when every
    host is done and raises when a host failed. *)
Inductive action : Type :=
| Execute (task : node_task)
| RunRemotely (cmd : string)
| WriteOnS3 (bucket path content : string).

(** The cluster and the object store answer each action from the
    history of actions: the output of a command, or an exception. *)
Class Cluster : Type := {
  respond : list action -> action -> res string
}.

Definition act `{Cluster} (a : action) : M (list action) string :=
  fun history => (respond history a, (history ++ [a])%list).

Definition nl : string := String "010" EmptyString.

Section Methods.
Context `{Cluster} `{JsonCodec}.

Definition run_remotely (cmd : string) : M (list action) string :=
  act (RunRemotely cmd).

Definition start_cluster_backup (snapshot : Snapshot.t) (incremental_backups : bool)
    : M (list action) unit :=
  act (Execute (NodeStartBackup snapshot incremental_backups)) ;;; ret tt.

Definition upload_cluster_backups (snapshot : Snapshot.t) (incremental_backups : bool)
    : M (list action) unit :=
  act (Execute (UploadNodeBackups snapshot incremental_backups)) ;;; ret tt.

Definition clear_cluster_backups (snapshot : Snapshot.t) : M (list action) unit :=
  act (Execute (ClearNodeBackups snapshot)) ;;; ret tt.

Definition clear_cluster_snapshot (snapshot_name : pyval) : M (list action) unit :=
  act (Execute (ClearNodeSnapshot snapshot_name)) ;;; ret tt.

Definition get_ring_description (self : t) : M (list action) string :=
  run_remotely (nodetool_path self +:+ " ring").

(** [re.match(r'(create|use| )', l)] *)
Definition schema_line (l : string) : bool :=
  String.prefix "create" l || String.prefix "use" l || String.prefix " " l.

Definition get_keyspace_schema (self : t) (keyspace : option string) : M (list action) string :=
  let cmd := "echo -e 'show schema;" +:+ nl +:+ "' | " +:+ cassandra_cli_path self in
  let cmd :=
    match keyspace with
    | Some ks =>
        if negb (String.eqb ks "") then
          "echo -e 'show schema;" +:+ nl +:+ "' | " +:+ cassandra_cli_path self +:+ " -k " +:+ ks
        else cmd
    | None => cmd
    end in
  output <~ run_remotely cmd ;;
  ret (str_join nl (filter schema_line (str_split "010" output))).

Definition write_on_s3 (bucket_name path content : string) : M (list action) unit :=
  act (WriteOnS3 bucket_name path content) ;;; ret tt.

Definition write_ring_description (self : t) (snapshot : Snapshot.t) : M (list action) unit :=
  content <~ get_ring_description self ;;
  base <~ lift (Snapshot.base_path snapshot) ;;
  let ring_path := str_join "/" [base; "ring"] in
  write_on_s3 (Snapshot.s3_bucket snapshot) ring_path content.

Definition write_schema (self : t) (snapshot : Snapshot.t) : M (list action) unit :=
  if truthy (Snapshot.keyspaces snapshot) then
    keyspaces <~ lift (as_str AttributeError (Snapshot.keyspaces snapshot)) ;;
    for_each (str_split "," keyspaces) (fun ks =>
      content <~ get_keyspace_schema self (Some ks) ;;
      base <~ lift (Snapshot.base_path snapshot) ;;
      let schema_path := str_join "/" [base; "schema_" +:+ ks +:+ ".cdl"] in
      write_on_s3 (Snapshot.s3_bucket snapshot) schema_path content)
  else
    content <~ get_keyspace_schema self None ;;
    base <~ lift (Snapshot.base_path snapshot) ;;
    let schema_path := str_join "/" [base; "schema.cdl"] in
    write_on_s3 (Snapshot.s3_bucket snapshot) schema_path content.

Definition write_snapshot_manifest (snapshot : Snapshot.t) : M (list action) unit :=
  content <~ lift (Snapshot.dump_manifest_file snapshot) ;;
  base <~ lift (Snapshot.base_path snapshot) ;;
  let manifest_path := str_join "/" [base; "manifest.json"] in
  write_on_s3 (Snapshot.s3_bucket snapshot) manifest_path content.

(** The steps of [snapshot] before the point-in-time snapshot: the
    optional clearing of the backups directories and of the old
    snapshots, and the log line, which formats the snapshot with
    [%r] (its [__repr__] must return a string). *)
Definition prepare (self : t) (snapshot : Snapshot.t)
    (delete_old_snapshots delete_backups : bool) : M (list action) unit :=
  when delete_backups
    (if negb (truthy (PyStr (cassandra_data_path self))) then ret tt
     else if negb (truthy (Snapshot.keyspaces snapshot)) then ret tt
     else clear_cluster_backups snapshot) ;;;
  when delete_old_snapshots (clear_cluster_snapshot (PyStr ALL_SNAPSHOTS)) ;;;
  lift (as_str TypeError (Snapshot.name snapshot)) ;;;
  ret tt.

(** The metadata written after the upload. *)
Definition publish (self : t) (snapshot : Snapshot.t) : M (list action) unit :=
  write_ring_description self snapshot ;;;
  write_snapshot_manifest snapshot ;;;
  when (backup_schema self) (write_schema self snapshot).

Definition snapshot (self : t) (snapshot : Snapshot.t)
    (keep_new_snapshot delete_old_snapshots delete_backups : bool) : M (list action) unit :=
  prepare self snapshot delete_old_snapshots delete_backups ;;;
  try_except
    (start_cluster_backup snapshot false)
    (fun _ => true)
    (fun e => clear_cluster_snapshot (Snapshot.name snapshot) ;;; raise e) ;;;
  try_finally
    (upload_cluster_backups snapshot false)
    (when (negb keep_new_snapshot) (clear_cluster_snapshot (Snapshot.name snapshot))) ;;;
  publish self snapshot.

Definition find_backups_command (keyspace_dir : string) : string :=
  "find " +:+ keyspace_dir +:+ " -mindepth 2 -name backups -type d".

(** The loop [for ks in keyspace_directories] of [clear_node_backups]:
    each round assigns [backups_dirs] anew. *)
Fixpoint collect_backups_dirs (self : t) (snapshot : Snapshot.t)
    (keyspace_directories : list string) (backups_dirs : list string)
    : M (list action) (list string) :=
  match keyspace_directories with
  | [] => ret backups_dirs
  | ks :: rest =>
      let keyspace_dir := os_path_join (cassandra_data_path self) [ks] in
      backups_dirs <~
        (if truthy (Snapshot.table snapshot) then
           table <~ lift (as_str TypeError (Snapshot.table snapshot)) ;;
           ret [keyspace_dir +:+ "/" +:+ table +:+ "/backups"]
         else
           output <~ run_remotely (find_backups_command keyspace_dir) ;;
           ret (str_words output)) ;;
      collect_backups_dirs self snapshot rest backups_dirs
  end.

Definition delete_command (backup_dir : string) : string :=
  "find " +:+ backup_dir +:+ " -mindepth 1 -delete".

Definition clear_node_backups (self : t) (snapshot : Snapshot.t) : M (list action) unit :=
  let backups_dirs := [] in
  keyspace_directories <~
    (if truthy (Snapshot.keyspaces snapshot) then
       keyspaces <~ lift (as_str AttributeError (Snapshot.keyspaces snapshot)) ;;
       ret (str_split "," keyspaces)
     else
       output <~ run_remotely ("find " +:+ cassandra_data_path self +:+ " -mindepth 1 -maxdepth 1 -type d") ;;
       ret (str_words output)) ;;
  backups_dirs <~ collect_backups_dirs self snapshot keyspace_directories backups_dirs ;;
  for_each backups_dirs (fun backup_dir =>
    run_remotely (delete_command backup_dir) ;;; ret tt).

(** [update_snapshot]; its log line formats the snapshot with [%r]. *)
Definition update_snapshot (self : t) (snapshot : Snapshot.t) : M (list action) unit :=
  lift (as_str TypeError (Snapshot.name snapshot)) ;;;
  start_cluster_backup snapshot true ;;;
  upload_cluster_backups snapshot true ;;;
  write_ring_description self snapshot ;;;
  when (backup_schema self) (write_schema self snapshot).

End Methods.

End BackupWorker.

(* ===================================================================== *)
(** ** main.py: run_backup                                               *)
(* ===================================================================== *)

Module Main.

(** The parsed command line of the [backup] subcommand, as far as
    [run_backup] hands it on. *)
Record backup_args : Type := {
  hosts : string;
  keyspaces : string;
  table : string;
  cassandra_data_path : string;
  cassandra_bin_dir : string;
  nodetool_path : option string;
  new_snapshot : bool;
  delete_old_snapshots : bool;
  keep_new_snapshot : bool;
  delete_incremental_backups : bool;
  backup_schema : bool;
  s3_base_path : string;
  s3_bucket_name : string
}.

(** The requests sent to the object store by the registry, and the
    actions of the backup worker. *)
Definition state : Type := list SnapshotCollection.s3_call * list BackupWorker.action.

(** A method of a collection made for the occasion: only the requests
    it sends outlive the call. *)
Definition on_collection {A : Type} (collection : SnapshotCollection.t)
    (m : M SnapshotCollection.state A) : M state A :=
  fun st =>
    match m (collection, fst st) with
    | (r, (_, log)) => (r, (log, snd st))
    end.

Definition on_cluster {A : Type} (m : M (list BackupWorker.action) A) : M state A :=
  fun st =>
    match m (snd st) with
    | (r, history) => (r, (fst st, history))
    end.

(** [BackupWorker(...)] as [run_backup] builds it. *)
Definition make_worker (args : backup_args) : BackupWorker.t :=
  BackupWorker.mk
    (cassandra_data_path args)
    (match nodetool_path args with
     | Some path => if String.eqb path "" then cassandra_bin_dir args +:+ "/nodetool" else path
     | None => cassandra_bin_dir args +:+ "/nodetool"
     end)
    (cassandra_bin_dir args +:+ "/cassandra-cli")
    (backup_schema args).

Definition env_hosts (args : backup_args) : pyval :=
  PyList (map PyStr (str_split "," (hosts args))).

Section RunBackup.
Context `{JsonCodec} `{Clock} `{ObjectStore} `{BackupWorker.Cluster} `{Now}.

Definition run_backup (args : backup_args) : M state unit :=
  let keep_new_snapshot_ := keep_new_snapshot args in
  let delete_old_snapshots_ := delete_old_snapshots args in
  let delete_backups := delete_incremental_backups args in
  decision <~
    (if new_snapshot args then
       ret (None, keep_new_snapshot_, delete_old_snapshots_, delete_backups)
     else
       existing_snapshot <~
         on_collection
           (SnapshotCollection.__init__ (s3_base_path args) (s3_bucket_name args))
           (SnapshotCollection.get_snapshot_for
              (env_hosts args) (PyStr (keyspaces args)) (PyStr (table args))) ;;
       ret (existing_snapshot, false, false, false)) ;;
  let worker := make_worker args in
  match decision with
  | (None, keep, delete_old, delete_bk) =>
      let snapshot :=
        Snapshot.__init__ (PyStr (s3_base_path args)) (s3_bucket_name args)
          (env_hosts args) (PyStr (keyspaces args)) (PyStr (table args)) in
      on_cluster (BackupWorker.snapshot worker snapshot keep delete_old delete_bk)
  | (Some existing_snapshot, _, _, _) =>
      on_cluster (BackupWorker.update_snapshot worker existing_snapshot)
  end.

End RunBackup.

End Main.

(* ===================================================================== *)
(** ** Concrete collaborators, for running the embedding                 *)
(* ===================================================================== *)

(** A JSON codec for the values of [pyval], in the layout [json.dumps]
    writes ([", "] and [": "] separators; the quote and the backslash
    escaped).  It stands in for the [json] module where a statement is
    run on a concrete manifest. *)
Module PlainJson.

Definition dq : ascii := "034".
Definition bs : ascii := "092".

Fixpoint escape (s : string) : string :=
  match s with
  | EmptyString => EmptyString
  | String a s' =>
      if Ascii.eqb a dq || Ascii.eqb a bs then String bs (String a (escape s'))
      else String a (escape s')
  end.

Definition enc_string (s : string) : string :=
  String dq (escape s +:+ String dq EmptyString).

Definition enc_int (z : Z) : string :=
  DecimalString.NilZero.string_of_int (Z.to_int z).

Fixpoint enc (v : pyval) : string :=
  match v with
  | PyNone => "null"
  | PyInt z => enc_int z
  | PyStr s => enc_string s
  | PyList l => "[" +:+ str_join ", " (map enc l) +:+ "]"
  end.

Definition enc_doc (d : document) : string :=
  match d with
  | DocValue v => enc v
  | DocDict m =>
      "{" +:+ str_join ", " (map (fun kv => enc_string (fst kv) +:+ ": " +:+ enc (snd kv))
                                 (map_to_list m)) +:+ "}"
  end.

Fixpoint skip_ws (s : string) : string :=
  match s with
  | String a s' => if is_space a then skip_ws s' else s
  | EmptyString => EmptyString
  end.

(** The rest of a string literal, after its opening quote. *)
Fixpoint dec_string_body (s : string) : option (string * string) :=
  match s with
  | EmptyString => None
  | String a s' =>
      if Ascii.eqb a dq then Some (EmptyString, s')
      else if Ascii.eqb a bs then
        match s' with
        | String b s'' =>
            if Ascii.eqb b dq || Ascii.eqb b bs then
              match dec_string_body s'' with
              | Some (r, rest) => Some (String b r, rest)
              | None => None
              end
            else None
        | EmptyString => None
        end
      else
        match dec_string_body s' with
        | Some (r, rest) => Some (String a r, rest)
        | None => None
        end
  end.

Definition digit (a : ascii) : option Z :=
  let n := nat_of_ascii a in
  if ((48 <=? n) && (n <=? 57))%nat then Some (Z.of_nat n - 48) else None.

Fixpoint dec_digits (acc : Z) (s : string) : Z * string :=
  match s with
  | String a s' =>
      match digit a with
      | Some d => dec_digits (10 * acc + d) s'
      | None => (acc, s)
      end
  | EmptyString => (acc, s)
  end.

Definition dec_int (s : string) : option (pyval * string) :=
  match s with
  | String "-" (String a s') =>
      match digit a with
      | Some d => let (n, rest) := dec_digits d s' in Some (PyInt (- n), rest)
      | None => None
      end
  | String a s' =>
      match digit a with
      | Some d => let (n, rest) := dec_digits d s' in Some (PyInt n, rest)
      | None => None
      end
  | EmptyString => None
  end.

Fixpoint dec_value (fuel : nat) (s : string) : option (pyval * string) :=
  match fuel with
  | O => None
  | S fuel' =>
      match skip_ws s with
      | String "n" (String "u" (String "l" (String "l" rest))) => Some (PyNone, rest)
      | String "[" rest =>
          match skip_ws rest with
          | String "]" rest' => Some (PyList [], rest')
          | _ =>
              match dec_items fuel' rest with
              | Some (l, rest') => Some (PyList l, rest')
              | None => None
              end
          end
      | String a rest =>
          if Ascii.eqb a dq then
            match dec_string_body rest with
            | Some (r, rest') => Some (PyStr r, rest')
            | None => None
            end
          else dec_int (String a rest)
      | EmptyString => None
      end
  end
with dec_items (fuel : nat) (s : string) : option (list pyval * string) :=
  match fuel with
  | O => None
  | S fuel' =>
      match dec_value fuel' s with
      | Some (v, rest) =>
          match skip_ws rest with
          | String "," rest' =>
              match dec_items fuel' rest' with
              | Some (l, rest'') => Some (v :: l, rest'')
              | None => None
              end
          | String "]" rest' => Some ([v], rest')
          | _ => None
          end
      | None => None
      end
  end.

(** The members of an object, after its opening brace. *)
Fixpoint dec_members (fuel : nat) (s : string) : option (gmap string pyval * string) :=
  match fuel with
  | O => None
  | S fuel' =>
      match skip_ws s with
      | String a rest =>
          if Ascii.eqb a dq then
            match dec_string_body rest with
            | Some (k, rest1) =>
                match skip_ws rest1 with
                | String ":" rest2 =>
                    match dec_value fuel' rest2 with
                    | Some (v, rest3) =>
                        match skip_ws rest3 with
                        | String "," rest4 =>
                            match dec_members fuel' rest4 with
                            | Some (m, rest5) => Some (<[k := v]> m, rest5)
                            | None => None
                            end
                        | String "}" rest4 => Some ({[k := v]}, rest4)
                        | _ => None
                        end
                    | None => None
                    end
                | _ => None
                end
            | None => None
            end
          else None
      | EmptyString => None
      end
  end.

Definition dec_doc (s : string) : option document :=
  let fuel := S (String.length s) in
  match skip_ws s with
  | String "{" rest =>
      match skip_ws rest with
      | String "}" rest' =>
          match skip_ws rest' with
          | EmptyString => Some (DocDict ∅)
          | _ => None
          end
      | _ =>
          match dec_members fuel rest with
          | Some (m, rest') =>
              match skip_ws rest' with
              | EmptyString => Some (DocDict m)
              | _ => None
              end
          | None => None
          end
      end
  | _ =>
      match dec_value fuel s with
      | Some (v, rest) =>
          match skip_ws rest with
          | EmptyString => Some (DocValue v)
          | _ => None
          end
      | None => None
      end
  end.

Definition codec : JsonCodec :=
  {| json_dumps := fun d => Ret (enc_doc d);
     json_loads := fun s => match dec_doc s with
                            | Some d => Ret d
                            | None => Raise ValueError
                            end |}.

End PlainJson.

(** The clock of a process whose time zone is UTC, on the fixed-width
    names that [make_snapshot_name] writes (fourteen digits,
    [%Y%m%d%H%M%S]); any other string is answered with [ValueError]. *)
Module UtcClock.

Fixpoint digits (n : nat) (acc : Z) (s : string) : option (Z * string) :=
  match n with
  | O => Some (acc, s)
  | S n' =>
      match s with
      | String a s' =>
          match PlainJson.digit a with
          | Some d => digits n' (10 * acc + d) s'
          | None => None
          end
      | EmptyString => None
      end
  end.

Definition is_leap (y : Z) : bool :=
  ((y mod 4 =? 0) && negb (y mod 100 =? 0)) || (y mod 400 =? 0).

Definition days_in_month (y m : Z) : Z :=
  if m =? 2 then (if is_leap y then 29 else 28)
  else if (m =? 4) || (m =? 6) || (m =? 9) || (m =? 11) then 30
  else 31.

(** Days from 1970-01-01 to the given civil date. *)
Definition days_from_civil (y m d : Z) : Z :=
  let y' := if m <=? 2 then y - 1 else y in
  let era := y' / 400 in
  let yoe := y' - era * 400 in
  let doy := (153 * (if 2 <? m then m - 3 else m + 9) + 2) / 5 + d - 1 in
  let doe := yoe * 365 + yoe / 4 - yoe / 100 + doy in
  era * 146097 + doe - 719468.

Definition parse (name : string) : option Z :=
  match digits 4 0 name with
  | Some (y, s1) =>
  match digits 2 0 s1 with
  | Some (m, s2) =>
  match digits 2 0 s2 with
  | Some (d, s3) =>
  match digits 2 0 s3 with
  | Some (hh, s4) =>
  match digits 2 0 s4 with
  | Some (mm, s5) =>
  match digits 2 0 s5 with
  | Some (ss, EmptyString) =>
      if (1 <=? y) && (1 <=? m) && (m <=? 12) && (1 <=? d) && (d <=? days_in_month y m)
         && (hh <=? 23) && (mm <=? 59) && (ss <=? 59)
      then Some (days_from_civil y m d * 86400 + hh * 3600 + mm * 60 + ss)
      else None
  | _ => None
  end
  | None => None
  end
  | None => None
  end
  | None => None
  end
  | None => None
  end
  | None => None
  end.

Definition clock : Clock :=
  {| strptime_mktime := fun name format =>
       if String.eqb format Snapshot.SNAPSHOT_TIMESTAMP_FORMAT then
         match parse name with
         | Some t => Ret t
         | None => Raise ValueError
         end
       else Raise ValueError |}.

End UtcClock.

(** Concrete inputs.  First a bucket with three snapshots under
    [cassandra/], one entry whose manifest is not JSON and one without a
    manifest; and an empty bucket. *)
Module Demo.

Definition hosts12 : pyval := PyList [PyStr "h1"; PyStr "h2"].

Definition jan : Snapshot.t :=
  Snapshot.mk "backups" (PyStr "20230101000000") hosts12 (PyStr "ks1") (PyStr "") (PyStr "cassandra").
Definition jun : Snapshot.t :=
  Snapshot.mk "backups" (PyStr "20230601120000") hosts12 (PyStr "ks1") (PyStr "") (PyStr "cassandra").
Definition jul_cf9 : Snapshot.t :=
  Snapshot.mk "backups" (PyStr "20230701000000") hosts12 (PyStr "ks1") (PyStr "cf9") (PyStr "cassandra").

Definition manifest (s : Snapshot.t) : string :=
  PlainJson.enc_doc (DocDict (Snapshot.manifest_data s)).

Definition bucket : Bucket :=
  {| list_names := fun prefix =>
       Ret ["cassandra/"; "cassandra/20230101000000/"; "cassandra/notes/";
            "cassandra/20230701000000/"; "cassandra/tmp/"; "cassandra/20230601120000/"];
     get_contents_as_string := fun key =>
       if String.eqb key "cassandra/20230101000000//manifest.json" then Ret (manifest jan)
       else if String.eqb key "cassandra/20230601120000//manifest.json" then Ret (manifest jun)
       else if String.eqb key "cassandra/20230701000000//manifest.json" then Ret (manifest jul_cf9)
       else if String.eqb key "cassandra/notes//manifest.json" then Ret "to do: rotate keys"
       else Raise S3ResponseError |}.

Definition store : ObjectStore := {| get_bucket := fun _ => bucket |}.

Definition empty_bucket : Bucket :=
  {| list_names := fun prefix => Ret [prefix];
     get_contents_as_string := fun key => Raise S3ResponseError |}.

Definition empty_store : ObjectStore := {| get_bucket := fun _ => empty_bucket |}.

Definition new_collection : SnapshotCollection.state :=
  (SnapshotCollection.__init__ "cassandra" "backups", []).

(** A world where every operation succeeds and every file has 4096
    bytes, and one where the first [failures] operations of a history are
    fetches that break. *)
Definition calm_world : World :=
  {| answer := fun _ op => match op with GetSize _ => Ret 4096 | _ => Ret 0 end |}.


(** A restore worker after [_restore] compiled its matcher, merging
    into the current directory. *)
Definition restore_worker (local_source : string) (hosts : list string)
    (keyspace table : string) : RestoreWorker.t :=
  RestoreWorker.mk None (Some (RestoreWorker.compile_matcher hosts keyspace table))
    local_source "." "/".

(** A backup worker, a snapshot of two keyspaces, a node that holds
    backups directories under both, and a cluster on which the steps
    selected by [fails] abort. *)
Definition backup_worker : BackupWorker.t :=
  BackupWorker.mk "/var/lib/cassandra/data/" "/usr/bin/nodetool" "/usr/bin/cassandra-cli" true.

Definition two_keyspaces : Snapshot.t :=
  Snapshot.mk "backups" (PyStr "20230101000000") hosts12 (PyStr "ks1,ks2") (PyStr "") (PyStr "cassandra").

Definition node : BackupWorker.Cluster :=
  {| BackupWorker.respond := fun _ a =>
       match a with
       | BackupWorker.RunRemotely cmd =>
           if String.eqb cmd (BackupWorker.find_backups_command "/var/lib/cassandra/data/ks1") then
             Ret ("/var/lib/cassandra/data/ks1/cf1/backups" +:+ BackupWorker.nl
                  +:+ "/var/lib/cassandra/data/ks1/cf2/backups")
           else if String.eqb cmd (BackupWorker.find_backups_command "/var/lib/cassandra/data/ks2") then
             Ret "/var/lib/cassandra/data/ks2/cf3/backups"
           else Ret ""
       | _ => Ret ""
       end |}.

Definition cluster (fails : BackupWorker.node_task -> bool) : BackupWorker.Cluster :=
  {| BackupWorker.respond := fun _ a =>
       match a with
       | BackupWorker.Execute task =>
           if fails task then Raise (NonException "SystemExit") else Ret ""
       | _ => Ret ""
       end |}.

Definition is_start (task : BackupWorker.node_task) : bool :=
  match task with BackupWorker.NodeStartBackup _ _ => true | _ => false end.

Definition is_upload (task : BackupWorker.node_task) : bool :=
  match task with BackupWorker.UploadNodeBackups _ _ => true | _ => false end.

(** Where the data file [data.db] of table [ks1/cf1] of a host is kept. *)
Definition sstable (root host : string) : string :=
  root +:+ "/" +:+ host +:+ "/var/lib/cassandra/data/ks1/cf1/data.db".

End Demo.

(** Further concrete inputs: a quiet cluster, an object store that holds
    what a full run on [Demo.jan] writes, a clock, command lines of the
    [backup] subcommand, a snapshot of one table, and the keys and files
    of a restore. *)
Module Scenario.

Definition quiet : BackupWorker.Cluster := Demo.cluster (fun _ => false).

Definition written_bucket : Bucket :=
  {| list_names := fun prefix => Ret ["cassandra/"; "cassandra/20230101000000"];
     get_contents_as_string := fun key =>
       if String.eqb key "cassandra/20230101000000/manifest.json" then Ret (Demo.manifest Demo.jan)
       else if String.eqb key "cassandra/20230101000000/ring" then Ret ""
       else if String.eqb key "cassandra/20230101000000/schema_ks1.cdl" then Ret ""
       else Raise S3ResponseError |}.

Definition written_store : ObjectStore := {| get_bucket := fun _ => written_bucket |}.

Definition august : Now := {| utcnow_strftime := fun _ => "20230801000000" |}.

Definition incremental_args : Main.backup_args :=
  {| Main.hosts := "h1,h2";
     Main.keyspaces := "ks1";
     Main.table := "";
     Main.cassandra_data_path := "/var/lib/cassandra/data/";
     Main.cassandra_bin_dir := "/usr/bin";
     Main.nodetool_path := None;
     Main.new_snapshot := false;
     Main.delete_old_snapshots := true;
     Main.keep_new_snapshot := true;
     Main.delete_incremental_backups := true;
     Main.backup_schema := true;
     Main.s3_base_path := "cassandra";
     Main.s3_bucket_name := "backups" |}.

Definition full_args : Main.backup_args :=
  {| Main.hosts := "h1,h2";
     Main.keyspaces := "ks1";
     Main.table := "";
     Main.cassandra_data_path := "/var/lib/cassandra/data/";
     Main.cassandra_bin_dir := "/usr/bin";
     Main.nodetool_path := None;
     Main.new_snapshot := true;
     Main.delete_old_snapshots := false;
     Main.keep_new_snapshot := false;
     Main.delete_incremental_backups := false;
     Main.backup_schema := false;
     Main.s3_base_path := "cassandra";
     Main.s3_bucket_name := "backups" |}.

Definition one_table : Snapshot.t :=
  Snapshot.mk "backups" (PyStr "20230101000000") Demo.hosts12 (PyStr "ks1,ks2") (PyStr "cf1")
    (PyStr "cassandra").

Definition key_a : S3Key :=
  {| key_name := Demo.sstable "cassandra/20230101000000" "nodeA"; key_size := 4096 |}.
Definition key_b : S3Key :=
  {| key_name := Demo.sstable "cassandra/20230101000000" "nodeB"; key_size := 1024 |}.
Definition key_ring : S3Key :=
  {| key_name := "cassandra/20230101000000/ring"; key_size := 120 |}.

Definition keys : RestoreWorker.KeyListing :=
  {| RestoreWorker.bucket_list := fun _ _ => Ret [key_a; key_ring; key_b] |}.






(** A node whose command-line client prints a banner around the schema. *)
Definition schema_node : BackupWorker.Cluster :=
  {| BackupWorker.respond := fun _ _ =>
       Ret ("Connected to: Test Cluster" +:+ BackupWorker.nl
            +:+ "create keyspace ks1" +:+ BackupWorker.nl
            +:+ "  with placement_strategy" +:+ BackupWorker.nl
            +:+ "use ks1;" +:+ BackupWorker.nl) |}.

(** A registry in which one snapshot was named by hand. *)
Definition latest : Snapshot.t :=
  Snapshot.mk "backups" (PyStr "latest") Demo.hosts12 (PyStr "ks1") (PyStr "") (PyStr "cassandra").

Definition listed : list string :=
  ["cassandra/"; "cassandra/20230101000000"; "cassandra/latest"].

Definition named_by_hand : ObjectStore :=
  {| get_bucket := fun _ =>
       {| list_names := fun prefix => Ret listed;
          get_contents_as_string := fun key =>
            if String.eqb key "cassandra/20230101000000/manifest.json"
            then Ret (Demo.manifest Demo.jan)
            else if String.eqb key "cassandra/latest/manifest.json"
            then Ret (Demo.manifest latest)
            else Raise S3ResponseError |} |}.

End Scenario.

(* ===================================================================== *)
(** ** Notions used by the statements                                    *)
(* ===================================================================== *)

(** The compatibility key of a snapshot against a query. *)
Definition compatible (s : Snapshot.t) (hosts keyspaces table : pyval) : Prop :=
  Snapshot.hosts s = hosts /\ Snapshot.keyspaces s = keyspaces /\ Snapshot.table s = table.

(** A snapshot under another name. *)
Definition with_name (n : Snapshot.t -> pyval) (s : Snapshot.t) : Snapshot.t :=
  Snapshot.mk (Snapshot.s3_bucket s) (n s) (Snapshot.hosts s)
    (Snapshot.keyspaces s) (Snapshot.table s) (Snapshot._base_path s).

(** A list is in descending order of recency: of two entries whose names
    parse, the earlier in the list is not the older. *)
Definition recency_sorted `{Clock} (l : list Snapshot.t) : Prop :=
  forall (i j : nat) (a b : Snapshot.t) (ta tb : Z),
    (i < j)%nat -> l !! i = Some a -> l !! j = Some b ->
    Snapshot.unix_time_name a = Ret ta -> Snapshot.unix_time_name b = Ret tb ->
    tb <= ta.

(** The states of a collection that a caller reaches from a new object
    through accesses that returned normally. *)
Inductive reachable `{JsonCodec} `{Clock} `{ObjectStore} : SnapshotCollection.state -> Prop :=
| reach_new (base_path s3_bucket : string) :
    reachable (SnapshotCollection.__init__ base_path s3_bucket, [])
| reach_access (a : SnapshotCollection.access) (st st' : SnapshotCollection.state) :
    reachable st ->
    SnapshotCollection.perform a st = (Ret tt, st') ->
    reachable st'.

(** The cached list, when there is one, is in descending order of recency. *)
Definition cache_sorted `{Clock} (st : SnapshotCollection.state) : Prop :=
  forall l, SnapshotCollection.snapshots (fst st) = Some l -> recency_sorted l.



(** Actions of the metadata publication: remote commands of the
    orchestrating process and writes to the object store. *)
Definition is_metadata (a : BackupWorker.action) : Prop :=
  match a with
  | BackupWorker.Execute _ => False
  | _ => True
  end.

(** The upload step or a metadata action. *)
Definition is_upload_or_metadata (a : BackupWorker.action) : Prop :=
  match a with
  | BackupWorker.Execute (BackupWorker.UploadNodeBackups _ _) => True
  | BackupWorker.Execute _ => False
  | _ => True
  end.

(** A cluster-wide clearing of snapshots. *)
Definition is_clear_snapshot (a : BackupWorker.action) : Prop :=
  match a with
  | BackupWorker.Execute (BackupWorker.ClearNodeSnapshot _) => True
  | _ => False
  end.

(** A computation only adds actions that satisfy [P] to the history. *)
Definition emits {A : Type} (P : BackupWorker.action -> Prop)
    (m : M (list BackupWorker.action) A) : Prop :=
  forall history, exists rest,
    snd (m history) = (history ++ rest)%list /\ Forall P rest.

(** The search for backups directories under a keyspace, and the
    deletion inside one of them, as [clear_node_backups] sends them. *)
Definition find_in (self : BackupWorker.t) (ks : string) : BackupWorker.action :=
  BackupWorker.RunRemotely
    (BackupWorker.find_backups_command
       (os_path_join (BackupWorker.cassandra_data_path self) [ks])).

Definition delete_in (backup_dir : string) : BackupWorker.action :=
  BackupWorker.RunRemotely (BackupWorker.delete_command backup_dir).

(** Where [_read_s3] looks for the manifest of a listed entry, the prefix
    it lists, the listed entries it reads (all but the prefix itself) and
    the snapshot that the manifest of an entry decodes to, if it can be
    fetched and loaded. *)
Definition manifest_path_of (snap_path : string) : string :=
  str_join "/" [snap_path; "manifest.json"].

Definition listing_prefix (collection : SnapshotCollection.t) : string :=
  if negb (endswith (SnapshotCollection.base_path collection) "/")
  then SnapshotCollection.base_path collection +:+ "/"
  else SnapshotCollection.base_path collection.

Definition entries (prefix : string) (names : list string) : list string :=
  filter (fun x => negb (String.eqb x prefix)) names.

Definition decoded `{JsonCodec} `{ObjectStore} (bucket_name snap_path : string)
    : option Snapshot.t :=
  match get_contents_as_string (get_bucket bucket_name) (manifest_path_of snap_path) with
  | Ret data =>
      match Snapshot.load_manifest_file data bucket_name with
      | Ret s => Some s
      | Raise _ => None
      end
  | Raise _ => None
  end.

(** The actions that the steps of [snapshot] before the point-in-time
    snapshot may take: the clearing of the backups directories, under the
    three conditions of the source, and the clearing of all snapshots. *)
Definition preparing_action (self : BackupWorker.t) (s : Snapshot.t)
    (delete_old_snapshots delete_backups : bool) (a : BackupWorker.action) : Prop :=
  (a = BackupWorker.Execute (BackupWorker.ClearNodeBackups s)
   /\ delete_backups = true
   /\ BackupWorker.cassandra_data_path self <> ""
   /\ truthy (Snapshot.keyspaces s) = true)
  \/ (a = BackupWorker.Execute (BackupWorker.ClearNodeSnapshot (PyStr BackupWorker.ALL_SNAPSHOTS))
      /\ delete_old_snapshots = true).

(** The actions of an incremental run on snapshot [s]: the flush, the
    incremental upload, remote commands, and writes to the object store
    at other keys than the manifest of [s]. *)
Definition incremental_action (s : Snapshot.t) (a : BackupWorker.action) : Prop :=
  match a with
  | BackupWorker.Execute (BackupWorker.NodeStartBackup x incremental) =>
      x = s /\ incremental = true
  | BackupWorker.Execute (BackupWorker.UploadNodeBackups x incremental) =>
      x = s /\ incremental = true
  | BackupWorker.Execute _ => False
  | BackupWorker.RunRemotely _ => True
  | BackupWorker.WriteOnS3 _ path _ =>
      forall base, Snapshot.base_path s = Ret base ->
        path <> str_join "/" [base; "manifest.json"]
  end.

(** The arguments of a backup with the three flags that need
    [--new-snapshot] switched off. *)
Definition without_deletion_flags (args : Main.backup_args) : Main.backup_args :=
  {| Main.hosts := Main.hosts args;
     Main.keyspaces := Main.keyspaces args;
     Main.table := Main.table args;
     Main.cassandra_data_path := Main.cassandra_data_path args;
     Main.cassandra_bin_dir := Main.cassandra_bin_dir args;
     Main.nodetool_path := Main.nodetool_path args;
     Main.new_snapshot := Main.new_snapshot args;
     Main.delete_old_snapshots := false;
     Main.keep_new_snapshot := false;
     Main.delete_incremental_backups := false;
     Main.backup_schema := Main.backup_schema args;
     Main.s3_base_path := Main.s3_base_path args;
     Main.s3_bucket_name := Main.s3_bucket_name args |}.

(** The lookup that [run_backup] makes without [--new-snapshot]: a new
    collection asked for the snapshot of the hosts, keyspaces and table
    of the command line. *)
Definition registry_lookup `{JsonCodec} `{Clock} `{ObjectStore}
    (args : Main.backup_args) (log : list SnapshotCollection.s3_call)
    : res (option Snapshot.t) * SnapshotCollection.state :=
  SnapshotCollection.get_snapshot_for
    (Main.env_hosts args) (PyStr (Main.keyspaces args)) (PyStr (Main.table args))
    (SnapshotCollection.__init__ (Main.s3_base_path args) (Main.s3_bucket_name args), log).

(** The snapshot that [run_backup] makes: named by the clock. *)
Definition new_snapshot_of `{Now} (args : Main.backup_args) : Snapshot.t :=
  Snapshot.__init__ (PyStr (Main.s3_base_path args)) (Main.s3_bucket_name args)
    (Main.env_hosts args) (PyStr (Main.keyspaces args)) (PyStr (Main.table args)).

(** The names of the files that a run writes next to the data of a
    snapshot, and the writes of a run on snapshot [s]: into the bucket of
    [s], at one of these names under its base path. *)
Definition metadata_file (file : string) : Prop :=
  file = "ring" \/ file = "manifest.json" \/ file = "schema.cdl"
  \/ exists ks, file = "schema_" +:+ ks +:+ ".cdl".

Definition writes_under (s : Snapshot.t) (a : BackupWorker.action) : Prop :=
  match a with
  | BackupWorker.WriteOnS3 bucket path _ =>
      bucket = Snapshot.s3_bucket s
      /\ exists base file,
           Snapshot.base_path s = Ret base /\ path = str_join "/" [base; file]
           /\ metadata_file file
  | _ => True
  end.



(** Strings free of newlines, and free of newlines and slashes. *)
Fixpoint string_forall (P : ascii -> bool) (s : string) : bool :=
  match s with
  | EmptyString => true
  | String a s' => P a && string_forall P s'
  end.

Definition within_line (s : string) : bool :=
  string_forall (fun a => negb (RestoreWorker.is_newline a)) s.

Definition is_segment (s : string) : bool :=
  string_forall
    (fun a => negb (RestoreWorker.is_slash a) && negb (RestoreWorker.is_newline a)) s.

(** Strings in which a character does not occur. *)
Definition free_of (c : ascii) (s : string) : bool :=
  string_forall (fun a => negb (Ascii.eqb a c)) s.

(** The names that the pattern [(h1|h2|...).*/(keyspace)/(table)/]
    describes: somewhere a host, later on the same line [/keyspace/],
    then the table and a slash. *)
Definition path_shape (m : RestoreWorker.matcher) (s : string) : Prop :=
  exists pre host mid table rest,
    s = pre +:+ host +:+ mid +:+ "/" +:+ RestoreWorker.pat_keyspace m +:+ "/"
        +:+ table +:+ "/" +:+ rest
    /\ host ∈ RestoreWorker.alt_hosts m
    /\ within_line mid = true
    /\ match RestoreWorker.pat_table m with
       | Some t => table = t
       | None => is_segment table = true
       end.




(** The number of listing requests in a log. *)
Definition listings (log : list SnapshotCollection.s3_call) : nat :=
  length (filter SnapshotCollection.is_list log).

(* ===================================================================== *)
(** * Properties                                                         *)
(* ===================================================================== *)

(** ** Python equality is equality of values *)

Lemma pyval_ind_list (P : pyval -> Prop) :
  P PyNone ->
  (forall z, P (PyInt z)) ->
  (forall s, P (PyStr s)) ->
  (forall l, Forall P l -> P (PyList l)) ->
  forall v, P v.
Proof.
  intros HN HI HS HL. fix IH 1. intros [| z | s | l]; [exact HN | apply HI | apply HS |].
  apply HL. induction l as [| x l IHl]; constructor; [apply IH | apply IHl].
Qed.

Lemma py_eq_spec (a b : pyval) : py_eq a b = true <-> a = b.
Proof.
  revert b. induction a as [| z | s | l IHl] using pyval_ind_list; intros b.
  - destruct b; simpl; split; congruence.
  - destruct b; simpl; try (split; congruence).
    rewrite Z.eqb_eq. split; congruence.
  - destruct b; simpl; try (split; congruence).
    rewrite String.eqb_eq. split; congruence.
  - destruct b as [| | | m]; simpl; try (split; congruence).
    revert m. induction IHl as [| x l Hx _ IH]; intros [| y m]; try (split; congruence).
    rewrite andb_true_iff, Hx, IH. split.
    + intros [-> E]. congruence.
    + intros E. injection E as -> ->. auto.
Qed.

Lemma py_ne_false (a b : pyval) : py_ne a b = false <-> a = b.
Proof. unfold py_ne. rewrite negb_false_iff. apply py_eq_spec. Qed.

Lemma py_ne_true (a b : pyval) : py_ne a b = true <-> a <> b.
Proof.
  unfold py_ne. rewrite negb_true_iff, <- not_true_iff_false, py_eq_spec. tauto.
Qed.

(** ** The stable sort *)

Section SortFacts.
Context {A : Type} (key : A -> Z).

Lemma insert_by_perm (x : A) (l : list A) : Permutation (insert_by key x l) (x :: l).
Proof.
  induction l as [| y l IH]; simpl; [reflexivity |].
  destruct (key y <? key x); [| reflexivity].
  rewrite IH. apply perm_swap.
Qed.

Lemma stable_sort_by_perm (l : list A) : Permutation (stable_sort_by key l) l.
Proof.
  induction l as [| x l IH]; simpl; [reflexivity |].
  rewrite insert_by_perm. now constructor.
Qed.

Lemma insert_by_sorted (x : A) (l : list A) :
  StronglySorted (key_le key) l -> StronglySorted (key_le key) (insert_by key x l).
Proof.
  induction 1 as [| y l Hl IH Hy]; simpl.
  - repeat constructor.
  - destruct (key y <? key x) eqn:E.
    + constructor; [exact IH |].
      rewrite Forall_forall. intros z Hz.
      rewrite insert_by_perm in Hz. apply elem_of_cons in Hz. destruct Hz as [-> | Hz].
      * unfold key_le. lia.
      * rewrite Forall_forall in Hy. auto.
    + constructor; [constructor; assumption |].
      constructor; [unfold key_le; lia |].
      eapply Forall_impl; [exact Hy |]. unfold key_le. intros z Hz. simpl in Hz. lia.
Qed.

Lemma stable_sort_by_sorted (l : list A) : StronglySorted (key_le key) (stable_sort_by key l).
Proof.
  induction l as [| x l IH]; simpl; [constructor | now apply insert_by_sorted].
Qed.

Lemma StronglySorted_snoc (R : A -> A -> Prop) (l : list A) (x : A) :
  StronglySorted R l -> Forall (fun y => R y x) l -> StronglySorted R (l ++ [x]).
Proof.
  induction 1 as [| y l Hl IH Hy]; intros Hx; simpl.
  - repeat constructor.
  - inversion Hx as [| ? ? Hyx Hlx]; subst. constructor; [auto |].
    apply Forall_app. split; [assumption | repeat constructor; assumption].
Qed.

Lemma StronglySorted_rev (l : list A) :
  StronglySorted (key_le key) l -> StronglySorted (key_ge key) (rev l).
Proof.
  induction 1 as [| y l Hl IH Hy]; simpl; [constructor |].
  apply StronglySorted_snoc; [exact IH |].
  rewrite Forall_forall. intros z Hz.
  apply list_elem_of_In, in_rev, list_elem_of_In in Hz.
  rewrite Forall_forall in Hy. apply Hy, Hz.
Qed.

Lemma StronglySorted_lookup (R : A -> A -> Prop) (l : list A) (i j : nat) (a b : A) :
  StronglySorted R l -> (i < j)%nat -> l !! i = Some a -> l !! j = Some b -> R a b.
Proof.
  intros Hs. revert i j. induction Hs as [| y l Hl IH Hy]; intros i j Hij Hi Hj.
  - discriminate.
  - destruct j as [| j]; [lia |]. destruct i as [| i]; simpl in *.
    + injection Hi as ->. rewrite Forall_forall in Hy. apply Hy.
      eapply list_elem_of_lookup_2. exact Hj.
    + apply (IH i j); [lia | assumption | assumption].
Qed.

Lemma sorted_descending (l : list A) :
  StronglySorted (key_ge key) (rev (stable_sort_by key (rev l)))
  /\ Permutation (rev (stable_sort_by key (rev l))) l.
Proof.
  split.
  - apply StronglySorted_rev, stable_sort_by_sorted.
  - rewrite <- Permutation_rev, stable_sort_by_perm, <- Permutation_rev. reflexivity.
Qed.

End SortFacts.

(** ** The registry *)

Section RegistryFacts.
Context `{JsonCodec} `{Clock} `{ObjectStore}.
Import SnapshotCollection.

Lemma res_map_combine {A B : Type} (f : A -> res B) (l : list A) (ys : list B) :
  res_map f l = Ret ys ->
  map snd (combine ys l) = l
  /\ Forall (fun p => f (snd p) = Ret (fst p)) (combine ys l).
Proof.
  revert ys. induction l as [| x l IH]; intros ys E; simpl in E.
  - injection E as <-. split; constructor.
  - destruct (f x) as [y |] eqn:Ex; simpl in E; [| discriminate].
    destruct (res_map f l) as [ys' |] eqn:El; simpl in E; [| discriminate].
    injection E as <-. destruct (IH ys' eq_refl) as [E1 E2]. simpl. split.
    + now rewrite E1.
    + constructor; assumption.
Qed.

(** The order the sort asks for is the order of the parsed timestamps. *)
Lemma lt_by_timestamp (x y : Snapshot.t) (tx ty : Z) :
  Snapshot.unix_time_name x = Ret tx ->
  Snapshot.unix_time_name y = Ret ty ->
  Snapshot.lt x y = Ret (tx <? ty).
Proof.
  intros Hx Hy. unfold Snapshot.lt, Snapshot.__cmp__. rewrite Hx, Hy. simpl.
  f_equal. destruct (Z.ltb_spec (tx - ty) 0), (Z.ltb_spec tx ty); auto; lia.
Qed.

Lemma recency_sorted_short (l : list Snapshot.t) :
  (length l < 2)%nat -> recency_sorted l.
Proof.
  intros Hl i j a b ta tb Hij Hi Hj _ _.
  apply lookup_lt_Some in Hj. lia.
Qed.

Lemma sorted_reverse_spec (l l' : list Snapshot.t) :
  sorted_reverse l = Ret l' -> recency_sorted l' /\ Permutation l' l.
Proof.
  unfold sorted_reverse. destruct (length l <? 2)%nat eqn:Hlen.
  - intros E. injection E as <-. split; [| reflexivity].
    apply recency_sorted_short. now apply Nat.ltb_lt.
  - destruct (res_map Snapshot.unix_time_name l) as [keys |] eqn:Ek; simpl; [| discriminate].
    intros E. injection E as <-.
    destruct (res_map_combine _ _ _ Ek) as [Esnd Hkeys].
    destruct (sorted_descending fst (combine keys l)) as [Hsorted Hperm].
    set (P := rev (stable_sort_by fst (rev (combine keys l)))) in *.
    split.
    + intros i j a b ta tb Hij Hi Hj Ha Hb.
      rewrite list_lookup_fmap in Hi, Hj.
      destruct (P !! i) as [[ka a'] |] eqn:Pi; simpl in Hi; [| discriminate].
      destruct (P !! j) as [[kb b'] |] eqn:Pj; simpl in Hj; [| discriminate].
      injection Hi as ->. injection Hj as ->.
      pose proof (StronglySorted_lookup _ _ _ _ _ _ Hsorted Hij Pi Pj) as Hge.
      unfold key_ge in Hge. simpl in Hge.
      rewrite Forall_forall in Hkeys.
      assert (Hin : forall k s i, P !! i = Some (k, s) -> Snapshot.unix_time_name s = Ret k).
      { intros k s n Hn. apply (Hkeys (k, s)). rewrite <- Hperm.
        eapply list_elem_of_lookup_2. exact Hn. }
      rewrite (Hin _ _ _ Pi) in Ha. rewrite (Hin _ _ _ Pj) in Hb.
      injection Ha as <-. injection Hb as <-. exact Hge.
    + transitivity (map snd (combine keys l)).
      * apply Permutation_map, Hperm.
      * now rewrite Esnd.
Qed.

Lemma read_s3_cached (st : state) :
  cached (fst st) = true -> _read_s3 st = (Ret tt, st).
Proof.
  intros Hc. unfold _read_s3, bind, self_. simpl. now rewrite Hc.
Qed.

Lemma read_s3_populates (st st' : state) :
  cached (fst st) = false ->
  _read_s3 st = (Ret tt, st') ->
  exists l0 l, sorted_reverse l0 = Ret l /\ snapshots (fst st') = Some l.
Proof.
  intros Hc. unfold _read_s3, bind, self_. simpl. rewrite Hc.
  destruct (list_names _ _) as [names |]; [| discriminate].
  destruct (for_each _ _ _) as [[[] |] s']; [| discriminate].
  destruct (sorted_reverse _) as [l |] eqn:Es; [| discriminate].
  unfold set_snapshots. intros E. injection E as <-. simpl. eauto.
Qed.

Lemma read_s3_cache_sorted (st st' : state) :
  cache_sorted st -> _read_s3 st = (Ret tt, st') -> cache_sorted st'.
Proof.
  intros Hinv E. destruct (cached (fst st)) eqn:Hc.
  - rewrite read_s3_cached in E by assumption. now injection E as <-.
  - destruct (read_s3_populates _ _ Hc E) as (l0 & l & Es & El).
    intros l' El'. rewrite El in El'. injection El' as <-.
    now apply sorted_reverse_spec in Es.
Qed.

(** Every access is a population followed by a read of the cache. *)
Lemma perform_read_s3 (a : access) (st st' : state) :
  perform a st = (Ret tt, st') -> _read_s3 st = (Ret tt, st').
Proof.
  destruct a; unfold perform, get_latest, get_snapshot_for, get_snapshot_by_name,
    __iter__, bind, self_, ret, raise; simpl;
    destruct (_read_s3 st) as [[[] |] st1]; try discriminate;
    destruct (snapshots (fst st1)) as [[| s l] |]; try discriminate;
    intros E; injection E as <-; reflexivity.
Qed.

Lemma reachable_cache_sorted (st : state) : reachable st -> cache_sorted st.
Proof.
  induction 1 as [bp bk | a st st' _ IH E].
  - intros l. discriminate.
  - eapply read_s3_cache_sorted; [exact IH |]. eapply perform_read_s3, E.
Qed.

Lemma iter_returns_cache (st st' : state) (l : list Snapshot.t) :
  __iter__ st = (Ret l, st') ->
  _read_s3 st = (Ret tt, st') /\ snapshots (fst st') = Some l.
Proof.
  unfold __iter__, bind, self_, ret, raise. simpl.
  destruct (_read_s3 st) as [[[] |] st1]; [| discriminate].
  destruct (snapshots (fst st1)) as [l1 |] eqn:E1; [| discriminate].
  intros E. injection E as <- <-. auto.
Qed.

Lemma first_compatible_spec (hosts keyspaces table : pyval) (l : list Snapshot.t) :
  match first_compatible hosts keyspaces table l with
  | Some s =>
      exists i, l !! i = Some s /\ compatible s hosts keyspaces table
        /\ forall j s', (j < i)%nat -> l !! j = Some s' -> ~ compatible s' hosts keyspaces table
  | None => forall s', s' ∈ l -> ~ compatible s' hosts keyspaces table
  end.
Proof.
  induction l as [| x l IH]; simpl.
  - intros s' Hs'. inversion Hs'.
  - assert (Hskip : ~ compatible x hosts keyspaces table ->
      match first_compatible hosts keyspaces table l with
      | Some s =>
          exists i, (x :: l) !! i = Some s /\ compatible s hosts keyspaces table
            /\ forall j s', (j < i)%nat -> (x :: l) !! j = Some s' -> ~ compatible s' hosts keyspaces table
      | None => forall s', s' ∈ x :: l -> ~ compatible s' hosts keyspaces table
      end).
    { intros Hx. destruct (first_compatible hosts keyspaces table l) as [s |].
      - destruct IH as (i & Hi & Hc & Hbefore). exists (S i).
        split; [exact Hi |]. split; [exact Hc |].
        intros [| j] s' Hj Hs'; simpl in Hs'.
        + now injection Hs' as <-.
        + apply (Hbefore j); [lia | assumption].
      - intros s' Hs'. apply elem_of_cons in Hs'. destruct Hs' as [-> | Hs']; auto. }
    destruct (py_ne (Snapshot.hosts x) hosts) eqn:Eh.
    { apply Hskip. apply py_ne_true in Eh. intros (? & _). contradiction. }
    destruct (py_ne (Snapshot.keyspaces x) keyspaces) eqn:Ek.
    { apply Hskip. apply py_ne_true in Ek. intros (_ & ? & _). contradiction. }
    destruct (py_ne (Snapshot.table x) table) eqn:Et.
    { apply Hskip. apply py_ne_true in Et. intros (_ & _ & ?). contradiction. }
    apply py_ne_false in Eh, Ek, Et. exists 0%nat.
    split; [reflexivity |]. split; [now repeat split |].
    intros j s' Hj. lia.
Qed.

(** The scan never reads the name: renaming the stored snapshots renames
    the answer and changes nothing else. *)
Lemma first_compatible_name_blind (n : Snapshot.t -> pyval)
    (hosts keyspaces table : pyval) (l : list Snapshot.t) :
  first_compatible hosts keyspaces table (map (with_name n) l)
  = option_map (with_name n) (first_compatible hosts keyspaces table l).
Proof.
  induction l as [| x l IH]; simpl; [reflexivity |].
  destruct (py_ne (Snapshot.hosts x) hosts); [exact IH |].
  destruct (py_ne (Snapshot.keyspaces x) keyspaces); [exact IH |].
  destruct (py_ne (Snapshot.table x) table); [exact IH | reflexivity].
Qed.

Lemma iter_recency_sorted (st st' : state) (l : list Snapshot.t) :
  reachable st -> __iter__ st = (Ret l, st') -> recency_sorted l.
Proof.
  intros Hreach E. apply iter_returns_cache in E. destruct E as [E El].
  apply (read_s3_cache_sorted st st'); [now apply reachable_cache_sorted | exact E | exact El].
Qed.


(** C1. [get_snapshot_for] answers with the first snapshot of the
    registry's list whose hosts, keyspaces and table all equal the query,
    and with nothing when no stored snapshot does; the name plays no part.
    The list being in descending order of recency, the answer is the most
    recent compatible snapshot. *)
Theorem get_snapshot_for_most_recent_compatible
    (hosts keyspaces table : pyval) (st st' : state) (r : option Snapshot.t) :
  get_snapshot_for hosts keyspaces table st = (Ret r, st') ->
  exists l, snapshots (fst st') = Some l
    /\ (forall n, first_compatible hosts keyspaces table (map (with_name n) l)
                  = option_map (with_name n) r)
    /\ match r with
       | Some s =>
           exists i, l !! i = Some s
             /\ compatible s hosts keyspaces table
             /\ (forall j s', (j < i)%nat -> l !! j = Some s' ->
                   ~ compatible s' hosts keyspaces table)
             /\ (reachable st ->
                 forall s' ts ts', s' ∈ l -> compatible s' hosts keyspaces table ->
                   Snapshot.unix_time_name s = Ret ts ->
                   Snapshot.unix_time_name s' = Ret ts' -> ts' <= ts)
       | None => forall s', s' ∈ l -> ~ compatible s' hosts keyspaces table
       end.
Proof.
  unfold get_snapshot_for, bind, ret.
  destruct (__iter__ st) as [[l |] st1] eqn:Eit; [| discriminate].
  intros E. injection E as <- <-.
  destruct (iter_returns_cache _ _ _ Eit) as [_ El].
  exists l. split; [exact El |]. split; [intros n; apply first_compatible_name_blind |].
  pose proof (first_compatible_spec hosts keyspaces table l) as Hspec.
  destruct (first_compatible hosts keyspaces table l) as [s |]; [| exact Hspec].
  destruct Hspec as (i & Hi & Hc & Hbefore). exists i.
  split; [exact Hi |]. split; [exact Hc |]. split; [exact Hbefore |].
  intros Hreach s' ts ts' Hs' Hc' Hts Hts'.
  pose proof (iter_recency_sorted st st1 l Hreach Eit) as Hs.
  apply list_elem_of_lookup in Hs'. destruct Hs' as [j Hj].
  destruct (Nat.lt_trichotomy j i) as [Hji | [-> | Hij]].
  - destruct (Hbefore j s' Hji Hj Hc').
  - rewrite Hi in Hj. injection Hj as <-. rewrite Hts in Hts'. injection Hts' as <-. lia.
  - exact (Hs i j s s' ts ts' Hij Hi Hj Hts Hts').
Qed.

(** *** Requests to the object store *)

Lemma listings_app (log log' : list s3_call) :
  listings (log ++ log') = (listings log + listings log')%nat.
Proof. unfold listings. now rewrite filter_app, length_app. Qed.

Lemma listings_one (bucket prefix : string) : listings [S3List bucket prefix] = 1%nat.
Proof. reflexivity. Qed.

Lemma read_manifest_log (bucket_name snap_path : string) (st : state) :
  exists gets, snd (snd (read_manifest bucket_name snap_path st)) = (snd st ++ gets)%list
    /\ listings gets = 0%nat.
Proof.
  unfold read_manifest, bind, try_except, request, ret, lift, append_snapshot. simpl.
  exists [S3Get bucket_name (snap_path +:+ "/" +:+ "manifest.json")].
  split; [| reflexivity].
  destruct (get_contents_as_string _ _) as [data | e]; simpl.
  - destruct (Snapshot.load_manifest_file data bucket_name) as [s | e']; simpl.
    + destruct (snapshots (fst st)); reflexivity.
    + destruct (is_Exception e'); reflexivity.
  - destruct (is_S3ResponseError e); reflexivity.
Qed.

Lemma for_each_read_manifest_log (bucket_name : string) (snap_paths : list string) (st : state) :
  exists gets,
    snd (snd (for_each snap_paths (read_manifest bucket_name) st)) = (snd st ++ gets)%list
    /\ listings gets = 0%nat.
Proof.
  revert st. induction snap_paths as [| p ps IH]; intros st; simpl.
  - exists []. split; [now rewrite app_nil_r | reflexivity].
  - unfold bind. destruct (read_manifest_log bucket_name p st) as (g1 & E1 & L1).
    destruct (read_manifest bucket_name p st) as [[[] | e] st1]; simpl in *.
    + destruct (IH st1) as (g2 & E2 & L2). exists (g1 ++ g2)%list.
      rewrite E2, E1, <- app_assoc, listings_app, L1, L2. auto.
    + exists g1. auto.
Qed.

(** While the cache is false (never filled, or filled with nothing),
    every call of [_read_s3] sends one more listing request. *)
Lemma read_s3_uncached_lists (st : state) :
  cached (fst st) = false ->
  listings (snd (snd (_read_s3 st))) = S (listings (snd st)).
Proof.
  intros Hc. unfold _read_s3, bind, self_, request, set_snapshots, lift. simpl. rewrite Hc.
  destruct (list_names _ _) as [names | e]; simpl.
  - match goal with |- context [for_each ?ps ?f ?s0] =>
      destruct (for_each_read_manifest_log (s3_bucket (fst st)) ps s0) as (gets & Eg & Lg);
      destruct (for_each ps f s0) as [[[] | e] s1] end; simpl in *.
    + destruct (sorted_reverse _); simpl; rewrite Eg, !listings_app, Lg, listings_one; lia.
    + rewrite Eg, !listings_app, Lg, listings_one. lia.
  - rewrite listings_app, listings_one. lia.
Qed.

(** Once the cache holds a snapshot, no access sends any request. *)
Lemma perform_cached (a : access) (st : state) :
  cached (fst st) = true -> snd (perform a st) = st.
Proof.
  intros Hc. pose proof (read_s3_cached st Hc) as E.
  destruct st as [c log]. simpl in Hc. unfold cached in Hc.
  destruct (snapshots c) as [[| s l] |] eqn:El; try discriminate.
  destruct a; unfold perform, get_latest, get_snapshot_for, get_snapshot_by_name,
    __iter__, bind, self_, ret, raise; rewrite E; simpl; rewrite El; reflexivity.
Qed.

Lemma perform_all_cached (accesses : list access) (st : state) :
  cached (fst st) = true -> perform_all accesses st = st.
Proof.
  intros Hc. induction accesses as [| a l IH]; simpl; [reflexivity |].
  now rewrite perform_cached.
Qed.

End RegistryFacts.

(** C8 (the code departs from the claim).  A collection whose first
    listing finds no snapshot is listed again by the next access: on the
    empty bucket, an iteration followed by [get_snapshot_for] both return
    and leave two listing requests in the log, where the claim allows
    one.  [read_s3_uncached_lists] is the general fact, [perform_all_cached]
    the caching that does happen once a snapshot was found. *)
Theorem empty_registry_is_listed_again :
  let first :=
    @SnapshotCollection.perform PlainJson.codec UtcClock.clock Demo.empty_store
      SnapshotCollection.Iterate Demo.new_collection in
  let second :=
    @SnapshotCollection.perform PlainJson.codec UtcClock.clock Demo.empty_store
      (SnapshotCollection.GetSnapshotFor Demo.hosts12 (PyStr "ks1") (PyStr "")) (snd first) in
  fst first = Ret tt
  /\ fst second = Ret tt
  /\ SnapshotCollection.snapshots (fst (snd first)) = Some []
  /\ listings (snd (snd first)) = 1%nat
  /\ listings (snd (snd second)) = 2%nat.
Proof. vm_compute. repeat split. Qed.

(** ** The manifest *)

Section ManifestFacts.
Context `{JsonCodec}.

Lemma manifest_data_lookups (s : Snapshot.t) :
  getitem (DocDict (Snapshot.manifest_data s)) "base_path" = Ret (Snapshot._base_path s)
  /\ getitem (DocDict (Snapshot.manifest_data s)) "hosts" = Ret (Snapshot.hosts s)
  /\ getitem (DocDict (Snapshot.manifest_data s)) "keyspaces" = Ret (Snapshot.keyspaces s)
  /\ getitem (DocDict (Snapshot.manifest_data s)) "table" = Ret (Snapshot.table s)
  /\ getitem (DocDict (Snapshot.manifest_data s)) "name" = Ret (Snapshot.name s).
Proof.
  unfold getitem, Snapshot.manifest_data. repeat split; now simplify_map_eq.
Qed.


End ManifestFacts.

(** ** The transfer primitive *)

Section TransferFacts.
Context `{World}.








(** [_download_key] has no [return]: whenever it returns, it returns
    [None], whatever the size of the key. *)
Lemma download_key_returns_none (self : RestoreWorker.t) (key : S3Key)
    (history history' : list io) (r : pyval) :
  RestoreWorker._download_key self key history = (Ret r, history') -> r = PyNone.
Proof.
  unfold RestoreWorker._download_key, bind, lift, ret.
  destruct (RestoreWorker.dst_from_key self (key_name key)) as [dst |]; [| discriminate].
  destruct (download_snappy_key key dst history) as [[v |] h1]; [| discriminate].
  intros E. now injection E as <- _.
Qed.

(** So a batch from the object store never gets past its first item. *)
Lemma download_keys_s3_never_returns (self : RestoreWorker.t) (key : S3Key)
    (keys : list S3Key) (total_size : Z) (history : list io) :
  exists e, fst (RestoreWorker._download_keys_s3 self (key :: keys) total_size history) = Raise e.
Proof.
  unfold RestoreWorker._download_keys_s3. simpl. unfold bind at 1.
  destruct (RestoreWorker._download_key self key history) as [[r |] h1] eqn:E.
  - apply download_key_returns_none in E. subst r.
    unfold bind, lift. simpl. eauto.
  - simpl. eauto.
Qed.

End TransferFacts.

(** C9 (the code departs from the claim).  [_download_key] does not
    hand the size on: for a key of 4096 bytes that downloads at the first
    attempt, [download_snappy_key] returns 4096 but [_download_key]
    returns [None], and [_download_keys] raises [TypeError] at
    [read_bytes += size] before any progress is written.  The sibling
    [_copy_key] returns the size and the same loop then reports 4096 and
    8192 of 8192 bytes for two files. *)
Theorem download_key_drops_the_size :
  let key := {| key_name := Demo.sstable "cassandra/20230101000000" "nodeA"; key_size := 4096 |} in
  let dst := "./ks1/cf1/nodeA_data.db" in
  let remote := Demo.restore_worker "" ["nodeA"; "nodeB"] "ks1" "" in
  let path := Demo.sstable "/restore/20230101000000" "nodeA" in
  let path_b := Demo.sstable "/restore/20230101000000" "nodeB" in
  let dst_b := "./ks1/cf1/nodeB_data.db" in
  let local := Demo.restore_worker "/restore" ["nodeA"; "nodeB"] "ks1" "" in
  @download_snappy_key Demo.calm_world key dst [] = (Ret (PyInt 4096), [Fetch (key_name key) dst])
  /\ @RestoreWorker._download_key Demo.calm_world remote key []
     = (Ret PyNone, [Fetch (key_name key) dst])
  /\ @RestoreWorker._download_keys_s3 Demo.calm_world remote [key] 4096 []
     = (Raise TypeError, [Fetch (key_name key) dst])
  /\ @RestoreWorker._copy_key Demo.calm_world local path []
     = (Ret (PyInt 4096), [Copy2 path dst; GetSize path])
  /\ @RestoreWorker._download_keys_local Demo.calm_world local [path; path_b] 8192 []
     = (Ret tt, [Copy2 path dst; GetSize path; StderrWrite 4096 8192;
                 Copy2 path_b dst_b; GetSize path_b; StderrWrite 8192 8192]).
Proof. vm_compute. repeat split. Qed.

(** ** Destinations of restored files *)

Section DestinationFacts.
Import RestoreWorker.

Lemma match_tail_table (m : matcher) (s g t : string) :
  match_tail m s = Some g -> pat_table m = Some t -> g = t.
Proof.
  unfold match_tail. intros E Ht. rewrite Ht in E.
  destruct (String.prefix _ s); [| discriminate].
  destruct (String.prefix _ _); congruence.
Qed.

Lemma greedy_tail_table (m : matcher) (s g t : string) :
  greedy_tail m s = Some g -> pat_table m = Some t -> g = t.
Proof.
  intros E Ht. induction s as [| a s IH]; simpl in E.
  - eapply match_tail_table; eassumption.
  - destruct (is_newline a); [eapply match_tail_table; eassumption |].
    destruct (greedy_tail m s) as [g' |].
    + injection E as <-. now apply IH.
    + eapply match_tail_table; eassumption.
Qed.

Lemma match_hosts_groups (m : matcher) (alts : list string) (s : string) (r : groups) :
  match_hosts m alts s = Some r ->
  group1 r ∈ alts /\ group2 r = pat_keyspace m
  /\ forall t, pat_table m = Some t -> group3 r = t.
Proof.
  induction alts as [| h alts IH]; simpl; [discriminate |].
  assert (Hnext : match_hosts m alts s = Some r ->
    group1 r ∈ h :: alts /\ group2 r = pat_keyspace m
    /\ forall t, pat_table m = Some t -> group3 r = t).
  { intros E. destruct (IH E) as (H1 & H2 & H3). repeat split; auto. now right. }
  destruct (String.prefix h s); [| exact Hnext].
  destruct (greedy_tail m _) as [g3 |] eqn:Eg; [| exact Hnext].
  intros E. injection E as <-. simpl. repeat split; [now left |].
  intros t Ht. eapply greedy_tail_table; eassumption.
Qed.

Lemma search_groups (m : matcher) (s : string) (r : groups) :
  search m s = Some r ->
  group1 r ∈ alt_hosts m /\ group2 r = pat_keyspace m
  /\ forall t, pat_table m = Some t -> group3 r = t.
Proof.
  induction s as [| a s IH]; simpl.
  - destruct (match_hosts m (alt_hosts m) "") as [r' |] eqn:E; [| discriminate].
    intros E'. injection E' as <-. eapply match_hosts_groups, E.
  - destruct (match_hosts m (alt_hosts m) (String a s)) as [r' |] eqn:E; [| exact IH].
    intros E'. injection E' as <-. eapply match_hosts_groups, E.
Qed.

(** The destination of a matched file: the merge directory, the keyspace,
    the table and a file name made of the host alternative that the
    matcher captured, an underscore and the last component of the path. *)
Lemma dst_from_key_shape (self : t) (path dst : string) :
  dst_from_key self path = Ret dst ->
  exists m host table,
    keyspace_table_matcher self = Some m
    /\ host ∈ alt_hosts m
    /\ (forall t, pat_table m = Some t -> table = t)
    /\ dst = os_path_join (merge_dir self)
               [pat_keyspace m; table;
                host +:+ "_" +:+ last_component (path_separator self) path].
Proof.
  unfold dst_from_key. destruct (keyspace_table_matcher self) as [m |]; [| discriminate].
  destruct (search m path) as [r |] eqn:E; [| discriminate].
  intros E'. injection E' as <-. destruct (search_groups _ _ _ E) as (H1 & H2 & H3).
  exists m, (group1 r), (group3 r). rewrite H2. auto.
Qed.

(** The matcher on a few paths: the last [/keyspace/] wins, a newline
    stops [.*], an empty table segment is matched by [.*?], and an empty
    host list leaves an empty first group. *)
Example search_examples :
  let any_table := compile_matcher ["nodeA"; "nodeB"] "ks1" "" in
  search any_table "x/nodeA/ks1/cf1/a/ks1/cf2/data.db"
  = Some {| group1 := "nodeA"; group2 := "ks1"; group3 := "cf2" |}
  /\ search any_table ("x/nodeA/ks1/cf1/a" +:+ String "010" "/ks1/cf2/data.db")
     = Some {| group1 := "nodeA"; group2 := "ks1"; group3 := "cf1" |}
  /\ search any_table "x/nodeA/ks1//data.db"
     = Some {| group1 := "nodeA"; group2 := "ks1"; group3 := "" |}
  /\ search any_table "x/nodeC/ks1/cf1/data.db" = None
  /\ search (compile_matcher [] "ks1" "cf1") "x/nodeA/ks1/cf1/d"
     = Some {| group1 := ""; group2 := "ks1"; group3 := "cf1" |}.
Proof. vm_compute. repeat split. Qed.

(** The example of the specification: hosts nodeA and nodeB. *)
Example nodeA_nodeB_do_not_collide :
  let self := Demo.restore_worker "" ["nodeA"; "nodeB"] "ks1" "cf1" in
  dst_from_key self (Demo.sstable "cassandra/20230101000000" "nodeA") = Ret "./ks1/cf1/nodeA_data.db"
  /\ dst_from_key self (Demo.sstable "cassandra/20230101000000" "nodeB") = Ret "./ks1/cf1/nodeB_data.db".
Proof. vm_compute. split; reflexivity. Qed.

(** C6 (the code departs from the claim).  The host in the destination
    name is the first alternative of the pattern that matches at the
    leftmost position, not the host the file was stored under.  With source
    hosts node1 and node10, the file [data.db] of node10 and the file
    [data.db] of node1 are both sent to [./ks1/cf1/node1_data.db]: one
    overwrites the other, and no [node10_data.db] is written. *)
Theorem prefix_host_shares_destination :
  let self := Demo.restore_worker "" ["node1"; "node10"] "ks1" "cf1" in
  let of_node1 := Demo.sstable "cassandra/20230101000000" "node1" in
  let of_node10 := Demo.sstable "cassandra/20230101000000" "node10" in
  of_node1 <> of_node10
  /\ dst_from_key self of_node1 = Ret "./ks1/cf1/node1_data.db"
  /\ dst_from_key self of_node10 = Ret "./ks1/cf1/node1_data.db".
Proof. vm_compute. repeat split. discriminate. Qed.

End DestinationFacts.

(** ** The backup run *)

Section BackupFacts.
Context `{BackupWorker.Cluster} `{JsonCodec}.
Import BackupWorker.

Lemma emits_ret {A : Type} (P : action -> Prop) (a : A) : emits P (ret a).
Proof. intros h. exists []. split; [simpl; now rewrite app_nil_r | constructor]. Qed.

Lemma emits_raise {A : Type} (P : action -> Prop) (e : exn) : emits P (@raise _ A e).
Proof. intros h. exists []. split; [simpl; now rewrite app_nil_r | constructor]. Qed.

Lemma emits_lift {A : Type} (P : action -> Prop) (r : res A) : emits P (lift r).
Proof. intros h. exists []. split; [simpl; now rewrite app_nil_r | constructor]. Qed.

Lemma emits_act (P : action -> Prop) (a : action) : P a -> emits P (act a).
Proof. intros Ha h. exists [a]. split; [reflexivity | now repeat constructor]. Qed.

Lemma emits_bind {A B : Type} (P : action -> Prop)
    (m : M (list action) A) (k : A -> M (list action) B) :
  emits P m -> (forall a, emits P (k a)) -> emits P (bind m k).
Proof.
  intros Hm Hk h. unfold bind. destruct (Hm h) as (r1 & E1 & F1).
  destruct (m h) as [[a | e] h1]; simpl in E1; subst h1.
  - destruct (Hk a (h ++ r1)%list) as (r2 & E2 & F2). exists (r1 ++ r2)%list.
    rewrite E2, app_assoc. split; [reflexivity | now apply Forall_app].
  - exists r1. auto.
Qed.

Lemma emits_for_each {A : Type} (P : action -> Prop) (l : list A)
    (body : A -> M (list action) unit) :
  (forall x, emits P (body x)) -> emits P (for_each l body).
Proof.
  intros Hb. induction l as [| x l IH]; simpl.
  - apply emits_ret.
  - apply emits_bind; [apply Hb | intros _; exact IH].
Qed.

Lemma emits_run_remotely (cmd : string) : emits is_metadata (run_remotely cmd).
Proof. apply emits_act. exact I. Qed.

Lemma emits_write_on_s3 (b p c : string) : emits is_metadata (write_on_s3 b p c).
Proof.
  apply emits_bind; [apply emits_act; exact I | intros _; apply emits_ret].
Qed.

Lemma emits_get_keyspace_schema (self : t) (ks : option string) :
  emits is_metadata (get_keyspace_schema self ks).
Proof.
  unfold get_keyspace_schema.
  apply emits_bind; [apply emits_run_remotely | intros out; apply emits_ret].
Qed.

Lemma emits_publish (self : t) (snapshot : Snapshot.t) :
  emits is_metadata (publish self snapshot).
Proof.
  unfold publish. apply emits_bind; [| intros _; apply emits_bind; [| intros _]].
  - unfold write_ring_description, get_ring_description.
    apply emits_bind; [apply emits_run_remotely | intros c].
    apply emits_bind; [apply emits_lift | intros b]. apply emits_write_on_s3.
  - unfold write_snapshot_manifest.
    apply emits_bind; [apply emits_lift | intros c].
    apply emits_bind; [apply emits_lift | intros b]. apply emits_write_on_s3.
  - unfold when. destruct (backup_schema self); [| apply emits_ret].
    unfold write_schema. destruct (truthy (Snapshot.keyspaces snapshot)).
    + apply emits_bind; [apply emits_lift | intros kss].
      apply emits_for_each. intros ks.
      apply emits_bind; [apply emits_get_keyspace_schema | intros c].
      apply emits_bind; [apply emits_lift | intros b]. apply emits_write_on_s3.
    + apply emits_bind; [apply emits_get_keyspace_schema | intros c].
      apply emits_bind; [apply emits_lift | intros b]. apply emits_write_on_s3.
Qed.

Lemma upload_then_clear_run (s : Snapshot.t) (keep_new_snapshot : bool) (history : list action) :
  try_finally (upload_cluster_backups s false)
    (when (negb keep_new_snapshot) (clear_cluster_snapshot (Snapshot.name s))) history
  = let upload := Execute (UploadNodeBackups s false) in
    let clear := Execute (ClearNodeSnapshot (Snapshot.name s)) in
    let uploaded := (history ++ [upload])%list in
    let outcome := match respond history upload with
                   | Ret _ => Ret tt
                   | Raise e => Raise e
                   end in
    if keep_new_snapshot then (outcome, uploaded)
    else match respond uploaded clear with
         | Ret _ => (outcome, (uploaded ++ [clear])%list)
         | Raise e => (Raise e, (uploaded ++ [clear])%list)
         end.
Proof.
  unfold try_finally, upload_cluster_backups, clear_cluster_snapshot, when, bind, act, ret.
  cbv zeta.
  destruct (respond history _) as [u | e]; destruct keep_new_snapshot; simpl;
    try reflexivity;
    destruct (respond _ (Execute (ClearNodeSnapshot _))); reflexivity.
Qed.

(** C4. When the cluster-wide point-in-time snapshot step raises, the
    only thing [snapshot] does afterwards is to clear the snapshot of that
    name on the cluster: no upload and no metadata action follows.  The
    run ends with the exception of the snapshot step (when the clearing
    itself raises, with the exception of the clearing). *)
Theorem snapshot_step_failure_clears_and_reraises
    (self : t) (s : Snapshot.t) (keep_new_snapshot delete_old_snapshots delete_backups : bool)
    (history prepared : list action) (e : exn) :
  prepare self s delete_old_snapshots delete_backups history = (Ret tt, prepared) ->
  respond prepared (Execute (NodeStartBackup s false)) = Raise e ->
  let run := snapshot self s keep_new_snapshot delete_old_snapshots delete_backups history in
  let started := (prepared ++ [Execute (NodeStartBackup s false)])%list in
  let clear := Execute (ClearNodeSnapshot (Snapshot.name s)) in
  snd run = (started ++ [clear])%list
  /\ Forall (fun a => ~ is_upload_or_metadata a) (drop (length prepared) (snd run))
  /\ (returns (respond started clear) -> fst run = Raise e)
  /\ (forall e', respond started clear = Raise e' -> fst run = Raise e')
  /\ ~ returns (fst run).
Proof.
  intros Hprep Hstart run started clear.
  assert (Erun : run = (match respond started clear with
                        | Ret _ => Raise e
                        | Raise e' => Raise e'
                        end, (started ++ [clear])%list)).
  { unfold run, snapshot. unfold bind at 1. rewrite Hprep.
    unfold bind at 1. unfold try_except, start_cluster_backup.
    unfold bind at 1. unfold act at 1. rewrite Hstart. simpl.
    unfold clear_cluster_snapshot, bind, act, raise, ret.
    fold started. fold clear. destruct (respond started clear); reflexivity. }
  rewrite Erun. simpl. split; [reflexivity |]. split.
  { unfold started. rewrite <- app_assoc, drop_app_length.
    repeat constructor; simpl; tauto. }
  split; [intros [o ->]; reflexivity |].
  split; [intros e' ->; reflexivity |].
  intros [[] Hr]. destruct (respond started clear); discriminate.
Qed.

(** C5. Once the upload step is reached, the cluster-wide clearing of the
    new snapshot is the action that follows it whenever [keep_new_snapshot]
    is false, whether the upload returned or raised; when it raised, the
    run ends there with an exception (that of the upload, unless the
    clearing raises too).  When [keep_new_snapshot] is true no clearing of
    snapshots follows the upload: the run ends with the upload's exception
    or goes on with metadata actions only. *)
Theorem snapshot_clears_after_upload
    (self : t) (s : Snapshot.t) (keep_new_snapshot delete_old_snapshots delete_backups : bool)
    (history prepared : list action) :
  prepare self s delete_old_snapshots delete_backups history = (Ret tt, prepared) ->
  returns (respond prepared (Execute (NodeStartBackup s false))) ->
  let run := snapshot self s keep_new_snapshot delete_old_snapshots delete_backups history in
  let started := (prepared ++ [Execute (NodeStartBackup s false)])%list in
  let upload := Execute (UploadNodeBackups s false) in
  let uploaded := (started ++ [upload])%list in
  let clear := Execute (ClearNodeSnapshot (Snapshot.name s)) in
  (keep_new_snapshot = false ->
     (forall e, respond started upload = Raise e ->
        snd run = (uploaded ++ [clear])%list
        /\ (returns (respond uploaded clear) -> fst run = Raise e)
        /\ ~ returns (fst run))
     /\ (returns (respond started upload) ->
        exists rest, snd run = (uploaded ++ [clear] ++ rest)%list
                     /\ Forall is_metadata rest))
  /\ (keep_new_snapshot = true ->
     (forall e, respond started upload = Raise e ->
        snd run = uploaded /\ fst run = Raise e)
     /\ (returns (respond started upload) ->
        exists rest, snd run = (uploaded ++ rest)%list
                     /\ Forall is_metadata rest
                     /\ Forall (fun a => ~ is_clear_snapshot a) rest)).
Proof.
  intros Hprep [o Hstart]. cbv zeta.
  set (started := (prepared ++ [Execute (NodeStartBackup s false)])%list).
  set (upload := Execute (UploadNodeBackups s false)).
  set (uploaded := (started ++ [upload])%list).
  set (clear := Execute (ClearNodeSnapshot (Snapshot.name s))).
  set (run := snapshot self s keep_new_snapshot delete_old_snapshots delete_backups history).
  assert (Erun : run =
    let outcome := match respond started upload with
                   | Ret _ => Ret tt
                   | Raise e => Raise e
                   end in
    let after :=
      if keep_new_snapshot then (outcome, uploaded)
      else match respond uploaded clear with
           | Ret _ => (outcome, (uploaded ++ [clear])%list)
           | Raise e => (Raise e, (uploaded ++ [clear])%list)
           end in
    match after with
    | (Ret _, h) => publish self s h
    | (Raise e, h) => (Raise e, h)
    end).
  { unfold run, snapshot. unfold bind at 1. rewrite Hprep.
    unfold bind at 1. unfold try_except, start_cluster_backup.
    unfold bind at 1. unfold act at 1. rewrite Hstart. cbv iota beta.
    unfold ret at 1. cbv beta iota.
    unfold bind at 1. rewrite upload_then_clear_run. reflexivity. }
  clearbody run. subst run. cbv zeta.
  split; intros ->.
  - split.
    + intros e ->. destruct (respond uploaded clear) as [c | e']; simpl.
      * split; [reflexivity |]. split; [reflexivity |]. intros [[] Hr]. discriminate.
      * split; [reflexivity |]. split; [intros [c Hc]; discriminate |].
        intros [[] Hr]. discriminate.
    + intros [u ->]. destruct (respond uploaded clear) as [c | e']; simpl.
      * destruct (emits_publish self s (uploaded ++ [clear])%list) as (rest & E & F).
        exists rest. rewrite E, <- app_assoc. auto.
      * exists []. split; [reflexivity | constructor].
  - split.
    + intros e ->. simpl. auto.
    + intros [u ->]. simpl.
      destruct (emits_publish self s uploaded) as (rest & E & F).
      exists rest. split; [exact E |]. split; [exact F |].
      eapply Forall_impl; [exact F |]. intros [task | cmd | b p c]; simpl; tauto.
Qed.

(** *** Clearing the backups directories of a node *)

Lemma collect_backups_dirs_run (self : t) (s : Snapshot.t) (init : list string) :
  truthy (Snapshot.table s) = false ->
  (forall h a, returns (respond h a)) ->
  forall (last : string) (backups_dirs : list string) (history : list action),
  exists found,
    respond (history ++ map (find_in self) init)%list (find_in self last) = Ret found
    /\ collect_backups_dirs self s (init ++ [last]) backups_dirs history
       = (Ret (str_words found), (history ++ map (find_in self) (init ++ [last]))%list).
Proof.
  intros Ht Hok. induction init as [| ks init IH]; intros last acc history; simpl.
  - rewrite Ht. unfold bind, run_remotely, act, ret. simpl.
    destruct (Hok history (find_in self last)) as [found Hf]. exists found.
    rewrite app_nil_r. split; [exact Hf |]. unfold find_in in Hf. simpl in Hf. now rewrite Hf.
  - rewrite Ht. unfold bind at 1 2. unfold run_remotely at 1. unfold act at 1.
    destruct (Hok history (find_in self ks)) as [o Ho]. unfold find_in in Ho. simpl in Ho.
    rewrite Ho. unfold ret at 1. cbv beta iota.
    destruct (IH last (str_words o) (history ++ [find_in self ks])%list) as (found & Hf & Hrun).
    exists found. rewrite <- !app_assoc in *. simpl in *. split; [exact Hf | exact Hrun].
Qed.

Lemma delete_all_run (dirs : list string) :
  (forall h a, returns (respond h a)) ->
  forall history,
    for_each dirs (fun backup_dir => run_remotely (delete_command backup_dir) ;;; ret tt) history
    = (Ret tt, (history ++ map delete_in dirs)%list).
Proof.
  intros Hok. induction dirs as [| d dirs IH]; intros history; simpl.
  - unfold ret. now rewrite app_nil_r.
  - unfold bind at 1 2. unfold run_remotely at 1. unfold act at 1.
    destruct (Hok history (RunRemotely (delete_command d))) as [o ->].
    unfold ret at 1. cbv beta iota. rewrite IH, <- app_assoc. reflexivity.
Qed.

(** C10. For a snapshot that names several keyspaces and no table, on a
    node where every remote command returns, [clear_node_backups] runs one
    search per keyspace and then deletes in exactly the directories that
    the search under the last keyspace printed: what the searches under the
    earlier keyspaces found has been overwritten by then. *)
Theorem clear_node_backups_deletes_for_last_keyspace_only
    (self : t) (s : Snapshot.t) (keyspaces : string) (init : list string) (last : string)
    (history : list action) :
  Snapshot.keyspaces s = PyStr keyspaces ->
  str_split "," keyspaces = (init ++ [last])%list ->
  init <> [] ->
  truthy (Snapshot.table s) = false ->
  (forall h a, returns (respond h a)) ->
  exists found,
    respond (history ++ map (find_in self) init)%list (find_in self last) = Ret found
    /\ clear_node_backups self s history
       = (Ret tt,
          (history ++ map (find_in self) (init ++ [last])
                   ++ map delete_in (str_words found))%list).
Proof.
  intros Hks Hsplit Hinit Ht Hok.
  assert (Htruthy : truthy (Snapshot.keyspaces s) = true).
  { rewrite Hks. simpl. destruct init as [| x init]; [contradiction |].
    destruct (String.eqb_spec keyspaces ""); [| reflexivity].
    subst keyspaces. destruct init; discriminate. }
  destruct (collect_backups_dirs_run self s init Ht Hok last [] history) as (found & Hf & Hrun).
  exists found. split; [exact Hf |].
  unfold clear_node_backups. rewrite Htruthy, Hks.
  unfold bind at 1 2. unfold lift at 1. simpl as_str. cbv beta iota.
  unfold ret at 1. cbv beta iota. rewrite Hsplit.
  unfold bind at 1. rewrite Hrun. rewrite delete_all_run by exact Hok.
  now rewrite <- app_assoc.
Qed.

End BackupFacts.

(** ** The statements at concrete inputs *)

Section Witnesses.
Local Existing Instance PlainJson.codec.
Local Existing Instance UtcClock.clock.
Local Existing Instance Demo.store.

(** The names of the specification's example: the later one sorts first. *)
Example later_name_sorts_first :
  sorted_reverse [Demo.jan; Demo.jun] = Ret [Demo.jun; Demo.jan]
  /\ Snapshot.unix_time_name Demo.jan = Ret 1672531200000
  /\ Snapshot.unix_time_name Demo.jun = Ret 1685620800000.
Proof. vm_compute. repeat split. Qed.

Lemma get_snapshot_for_most_recent_compatible_witness :
  SnapshotCollection.get_snapshot_for Demo.hosts12 (PyStr "ks1") (PyStr "") Demo.new_collection
  = (Ret (Some Demo.jun),
     snd (SnapshotCollection.get_snapshot_for Demo.hosts12 (PyStr "ks1") (PyStr "")
            Demo.new_collection))
  /\ exists l,
       l = [Demo.jul_cf9; Demo.jun; Demo.jan]
       /\ exists i, l !! i = Some Demo.jun
            /\ compatible Demo.jun Demo.hosts12 (PyStr "ks1") (PyStr "")
            /\ (forall j s', (j < i)%nat -> l !! j = Some s' ->
                  ~ compatible s' Demo.hosts12 (PyStr "ks1") (PyStr ""))
            /\ (reachable Demo.new_collection ->
                forall s' ts ts', s' ∈ l ->
                  compatible s' Demo.hosts12 (PyStr "ks1") (PyStr "") ->
                  Snapshot.unix_time_name Demo.jun = Ret ts ->
                  Snapshot.unix_time_name s' = Ret ts' -> ts' <= ts).
Proof.
  assert (E : SnapshotCollection.get_snapshot_for Demo.hosts12 (PyStr "ks1") (PyStr "")
                Demo.new_collection
              = (Ret (Some Demo.jun),
                 snd (SnapshotCollection.get_snapshot_for Demo.hosts12 (PyStr "ks1") (PyStr "")
                        Demo.new_collection))) by (vm_compute; reflexivity).
  split; [exact E |].
  destruct (get_snapshot_for_most_recent_compatible _ _ _ _ _ _ E) as (l & El & _ & W).
  exists l. split; [| exact W].
  vm_compute in El. now injection El as <-.
Defined.



Lemma snapshot_step_failure_clears_and_reraises_witness :
  let start := BackupWorker.Execute (BackupWorker.NodeStartBackup Demo.jan false) in
  let clear := BackupWorker.Execute (BackupWorker.ClearNodeSnapshot (PyStr "20230101000000")) in
  let prepared :=
    [BackupWorker.Execute (BackupWorker.ClearNodeBackups Demo.jan);
     BackupWorker.Execute (BackupWorker.ClearNodeSnapshot (PyStr "__ALL_SNAPSHOTS__"))] in
  @BackupWorker.prepare (Demo.cluster Demo.is_start) Demo.backup_worker Demo.jan true true []
  = (Ret tt, prepared)
  /\ @BackupWorker.respond (Demo.cluster Demo.is_start) prepared start
     = Raise (NonException "SystemExit")
  /\ @BackupWorker.snapshot (Demo.cluster Demo.is_start) PlainJson.codec
       Demo.backup_worker Demo.jan false true true []
     = (Raise (NonException "SystemExit"), (prepared ++ [start; clear])%list).
Proof.
  intros start clear prepared.
  assert (E1 : @BackupWorker.prepare (Demo.cluster Demo.is_start) Demo.backup_worker
                 Demo.jan true true [] = (Ret tt, prepared)) by reflexivity.
  assert (E2 : @BackupWorker.respond (Demo.cluster Demo.is_start) prepared start
               = Raise (NonException "SystemExit")) by reflexivity.
  split; [exact E1 |]. split; [exact E2 |].
  destruct (@snapshot_step_failure_clears_and_reraises (Demo.cluster Demo.is_start)
              PlainJson.codec Demo.backup_worker Demo.jan false true true [] prepared _ E1 E2)
    as (Htrace & _ & Hres & _).
  apply injective_projections.
  - apply Hres. exists "". reflexivity.
  - rewrite Htrace. now rewrite <- app_assoc.
Defined.

Lemma snapshot_clears_after_upload_witness :
  let start := BackupWorker.Execute (BackupWorker.NodeStartBackup Demo.jan false) in
  let upload := BackupWorker.Execute (BackupWorker.UploadNodeBackups Demo.jan false) in
  let clear := BackupWorker.Execute (BackupWorker.ClearNodeSnapshot (PyStr "20230101000000")) in
  @BackupWorker.prepare (Demo.cluster Demo.is_upload) Demo.backup_worker Demo.jan false false []
  = (Ret tt, [])
  /\ returns (@BackupWorker.respond (Demo.cluster Demo.is_upload) [] start)
  /\ @BackupWorker.snapshot (Demo.cluster Demo.is_upload) PlainJson.codec
       Demo.backup_worker Demo.jan false false false []
     = (Raise (NonException "SystemExit"), [start; upload; clear])
  /\ @BackupWorker.snapshot (Demo.cluster Demo.is_upload) PlainJson.codec
       Demo.backup_worker Demo.jan true false false []
     = (Raise (NonException "SystemExit"), [start; upload]).
Proof.
  intros start upload clear.
  assert (E1 : @BackupWorker.prepare (Demo.cluster Demo.is_upload) Demo.backup_worker
                 Demo.jan false false [] = (Ret tt, [])) by reflexivity.
  assert (E2 : returns (@BackupWorker.respond (Demo.cluster Demo.is_upload) [] start))
    by (exists ""; reflexivity).
  assert (E3 : @BackupWorker.respond (Demo.cluster Demo.is_upload) [start] upload
               = Raise (NonException "SystemExit")) by reflexivity.
  split; [exact E1 |]. split; [exact E2 |]. split.
  - destruct (@snapshot_clears_after_upload (Demo.cluster Demo.is_upload) PlainJson.codec
                Demo.backup_worker Demo.jan false false false [] [] E1 E2) as [Hclear _].
    destruct (Hclear eq_refl) as [Hraise _].
    destruct (Hraise _ E3) as (Htrace & Hres & _).
    apply injective_projections; [apply Hres; exists ""; reflexivity | exact Htrace].
  - destruct (@snapshot_clears_after_upload (Demo.cluster Demo.is_upload) PlainJson.codec
                Demo.backup_worker Demo.jan true false false [] [] E1 E2) as [_ Hkeep].
    destruct (Hkeep eq_refl) as [Hraise _].
    destruct (Hraise _ E3) as (Htrace & Hres).
    apply injective_projections; [exact Hres | exact Htrace].
Defined.


Lemma clear_node_backups_deletes_for_last_keyspace_only_witness :
  Snapshot.keyspaces Demo.two_keyspaces = PyStr "ks1,ks2"
  /\ str_split "," "ks1,ks2" = (["ks1"] ++ ["ks2"])%list
  /\ truthy (Snapshot.table Demo.two_keyspaces) = false
  /\ (forall h a, returns (@BackupWorker.respond Demo.node h a))
  /\ @BackupWorker.clear_node_backups Demo.node Demo.backup_worker Demo.two_keyspaces []
     = (Ret tt,
        [find_in Demo.backup_worker "ks1"; find_in Demo.backup_worker "ks2";
         delete_in "/var/lib/cassandra/data/ks2/cf3/backups"]).
Proof.
  assert (Hok : forall h a, returns (@BackupWorker.respond Demo.node h a)).
  { intros h [task | cmd | b p c]; simpl; try (eexists; reflexivity).
    destruct (String.eqb cmd _); [eexists; reflexivity |].
    destruct (String.eqb cmd _); eexists; reflexivity. }
  split; [reflexivity |]. split; [reflexivity |]. split; [reflexivity |]. split; [exact Hok |].
  destruct (@clear_node_backups_deletes_for_last_keyspace_only Demo.node
              Demo.backup_worker Demo.two_keyspaces "ks1,ks2" ["ks1"] "ks2" []
              eq_refl eq_refl ltac:(discriminate) eq_refl Hok) as (found & Hf & Hrun).
  rewrite Hrun. vm_compute in Hf. injection Hf as <-. reflexivity.
Defined.

End Witnesses.

(* ===================================================================== *)
(** * Further properties of the code                                     *)
(* ===================================================================== *)

(** ** Reading a manifest *)

Section LoadFacts.
Context `{JsonCodec}.

(** X1. [load_manifest_file] returns a snapshot exactly when the data decodes
    to a JSON object that holds the five keys, whatever else the object
    holds and whatever the types of the five values; the snapshot then
    carries these values and the bucket it was given.  A decoding error is
    passed on, a document that is not an object gives a [TypeError] and an
    object that lacks one of the keys a [KeyError]. *)
Theorem load_manifest_file_needs_the_five_keys (data bucket : string) :
  (forall s, Snapshot.load_manifest_file data bucket = Ret s <->
     exists d, json_loads data = Ret (DocDict d)
       /\ d !! "base_path" = Some (Snapshot._base_path s)
       /\ d !! "hosts" = Some (Snapshot.hosts s)
       /\ d !! "keyspaces" = Some (Snapshot.keyspaces s)
       /\ d !! "table" = Some (Snapshot.table s)
       /\ d !! "name" = Some (Snapshot.name s)
       /\ Snapshot.s3_bucket s = bucket)
  /\ (forall e, json_loads data = Raise e -> Snapshot.load_manifest_file data bucket = Raise e)
  /\ (forall v, json_loads data = Ret (DocValue v) ->
        Snapshot.load_manifest_file data bucket = Raise TypeError)
  /\ (forall d key, json_loads data = Ret (DocDict d) ->
        key ∈ ["base_path"; "hosts"; "keyspaces"; "table"; "name"] ->
        d !! key = None ->
        Snapshot.load_manifest_file data bucket = Raise KeyError).
Proof.
  unfold Snapshot.load_manifest_file.
  destruct (json_loads data) as [[d | v] | e]; cbn [res_bind getitem].
  - repeat split.
    + destruct (d !! "base_path") as [bp |] eqn:E1; cbn [res_bind]; [| discriminate].
      destruct (d !! "hosts") as [h |] eqn:E2; cbn [res_bind]; [| discriminate].
      destruct (d !! "keyspaces") as [k |] eqn:E3; cbn [res_bind]; [| discriminate].
      destruct (d !! "table") as [t |] eqn:E4; cbn [res_bind]; [| discriminate].
      destruct (d !! "name") as [n |] eqn:E5; cbn [res_bind]; [| discriminate].
      intros E. injection E as <-. exists d. simpl. repeat split; assumption.
    + intros (d' & Ed & E1 & E2 & E3 & E4 & E5 & <-). injection Ed as <-.
      rewrite E1, E2, E3, E4, E5. cbn [res_bind]. now destruct s.
    + discriminate.
    + discriminate.
    + intros d' key Ed Hkey Hnone. injection Ed as <-.
      destruct (d !! "base_path") as [bp |] eqn:E1; cbn [res_bind]; [| reflexivity].
      destruct (d !! "hosts") as [h |] eqn:E2; cbn [res_bind]; [| reflexivity].
      destruct (d !! "keyspaces") as [k |] eqn:E3; cbn [res_bind]; [| reflexivity].
      destruct (d !! "table") as [t |] eqn:E4; cbn [res_bind]; [| reflexivity].
      destruct (d !! "name") as [n |] eqn:E5; cbn [res_bind]; [| reflexivity].
      repeat (apply elem_of_cons in Hkey; destruct Hkey as [-> | Hkey]; [congruence |]).
      inversion Hkey.
  - repeat split; try discriminate; try (intros (d' & Ed & _); discriminate);
      intros; reflexivity.
  - repeat split; try discriminate; try (intros (d' & Ed & _); discriminate).
    intros e' Ee. injection Ee as <-. reflexivity.
Qed.

End LoadFacts.

(** ** Population of the registry *)

Section PopulationFacts.
Context `{JsonCodec} `{Clock} `{ObjectStore}.
Import SnapshotCollection.

Lemma read_manifest_returns (bucket_name snap_path : string) (st st1 : state)
    (acc : list Snapshot.t) :
  snapshots (fst st) = Some acc ->
  read_manifest bucket_name snap_path st = (Ret tt, st1) ->
  snapshots (fst st1)
  = Some (acc ++ match decoded bucket_name snap_path with Some s => [s] | None => [] end)%list
  /\ snd st1 = (snd st ++ [S3Get bucket_name (manifest_path_of snap_path)])%list
  /\ s3_bucket (fst st1) = s3_bucket (fst st)
  /\ base_path (fst st1) = base_path (fst st).
Proof.
  intros Hacc. unfold read_manifest, decoded, manifest_path_of, bind, try_except, request,
    ret, lift, append_snapshot. simpl.
  destruct (get_contents_as_string _ _) as [data | e]; simpl.
  - destruct (Snapshot.load_manifest_file data bucket_name) as [s | e']; simpl.
    + rewrite Hacc. intros E. injection E as <-. simpl. auto.
    + destruct (is_Exception e'); intros E; [| discriminate].
      injection E as <-. simpl. rewrite app_nil_r. auto.
  - destruct (is_S3ResponseError e); intros E; [| discriminate].
    injection E as <-. simpl. rewrite app_nil_r. auto.
Qed.

Lemma for_each_read_manifest_returns (bucket_name : string) (snap_paths : list string) :
  forall (st st1 : state) (acc : list Snapshot.t),
    snapshots (fst st) = Some acc ->
    for_each snap_paths (read_manifest bucket_name) st = (Ret tt, st1) ->
    snapshots (fst st1) = Some (acc ++ omap (decoded bucket_name) snap_paths)%list
    /\ snd st1 = (snd st ++ map (fun p => S3Get bucket_name (manifest_path_of p)) snap_paths)%list
    /\ s3_bucket (fst st1) = s3_bucket (fst st)
    /\ base_path (fst st1) = base_path (fst st).
Proof.
  induction snap_paths as [| p ps IH]; intros st st1 acc Hacc; simpl.
  - unfold ret. intros E. injection E as <-. rewrite !app_nil_r. auto.
  - unfold bind at 1.
    destruct (read_manifest bucket_name p st) as [[[] | e] st0] eqn:Ep; [| discriminate].
    destruct (read_manifest_returns _ _ _ _ _ Hacc Ep) as (Hsn & Hlg & Hbk & Hbp).
    intros E. destruct (IH _ _ _ Hsn E) as (G1 & G2 & G3 & G4).
    rewrite G1, G2, Hlg, G3, G4, Hbk, Hbp, <- !app_assoc. repeat split.
    destruct (decoded bucket_name p); reflexivity.
Qed.

(** X2. A population that returns leaves in the cache the snapshots decoded
    from the listed entries, each once and none else: entries whose
    manifest is not found or does not load are left out, the entry of the
    prefix itself is not read.  The requests sent are one listing and then
    one fetch per entry, in the order of the listing. *)
Theorem population_keeps_what_decodes (st st' : state) :
  cached (fst st) = false ->
  _read_s3 st = (Ret tt, st') ->
  let bucket_name := s3_bucket (fst st) in
  let prefix := listing_prefix (fst st) in
  exists names l,
    list_names (get_bucket bucket_name) prefix = Ret names
    /\ snapshots (fst st') = Some l
    /\ Permutation l (omap (decoded bucket_name) (entries prefix names))
    /\ snd st' = (snd st ++ S3List bucket_name prefix
                    :: map (fun p => S3Get bucket_name (manifest_path_of p))
                           (entries prefix names))%list.
Proof.
  intros Hc. unfold _read_s3, bind, self_, request, set_snapshots, lift. simpl. rewrite Hc.
  fold (listing_prefix (fst st)).
  destruct (list_names _ _) as [names |]; [| discriminate].
  fold (entries (listing_prefix (fst st)) names).
  destruct (for_each _ _ _) as [[[] |] s1] eqn:Eloop; [| discriminate].
  pose proof (fun Hx => for_each_read_manifest_returns _ _ _ _ [] Hx Eloop) as Hr.
  destruct (Hr eq_refl) as (Hsn & Hlg & _).
  rewrite Hsn. simpl.
  destruct (sorted_reverse _) as [l |] eqn:Es; [| discriminate].
  intros E. injection E as <-. simpl. exists names, l. repeat split.
  - now apply sorted_reverse_spec in Es.
  - rewrite Hlg. simpl. now rewrite <- app_assoc.
Qed.

Lemma res_map_returns {A B : Type} (f : A -> res B) (l : list A) :
  (forall x, x ∈ l -> returns (f x)) -> returns (res_map f l).
Proof.
  induction l as [| x l IH]; intros Hall; simpl.
  - eexists. reflexivity.
  - destruct (Hall x) as [y ->]; [now left |]. simpl.
    destruct IH as [ys ->]; [intros z Hz; apply Hall; now right |].
    eexists. reflexivity.
Qed.

(** X3. Population returns whenever the listing returns, every fetch either
    returns or fails with [S3ResponseError], the loading of a manifest
    fails only with exceptions of class [Exception], and fewer than two
    snapshots decode or the names of all of them parse: no missing or
    damaged manifest makes it fail. *)
Theorem population_skips_bad_manifests (st : state) (names : list string) :
  let bucket_name := s3_bucket (fst st) in
  let prefix := listing_prefix (fst st) in
  cached (fst st) = false ->
  list_names (get_bucket bucket_name) prefix = Ret names ->
  (forall p e, p ∈ entries prefix names ->
     get_contents_as_string (get_bucket bucket_name) (manifest_path_of p) = Raise e ->
     e = S3ResponseError) ->
  (forall p data e, p ∈ entries prefix names ->
     get_contents_as_string (get_bucket bucket_name) (manifest_path_of p) = Ret data ->
     Snapshot.load_manifest_file data bucket_name = Raise e ->
     is_Exception e = true) ->
  ((length (omap (decoded bucket_name) (entries prefix names)) < 2)%nat
   \/ forall s, s ∈ omap (decoded bucket_name) (entries prefix names) ->
        returns (Snapshot.unix_time_name s)) ->
  fst (_read_s3 st) = Ret tt.
Proof.
  intros bucket_name prefix Hc Hlist Hfetch Hload Hsort.
  assert (Hloop : forall ps st0,
    (forall p, p ∈ ps -> p ∈ entries prefix names) ->
    exists st1, for_each ps (read_manifest bucket_name) st0 = (Ret tt, st1)).
  { induction ps as [| p ps IH]; intros st0 Hin; simpl.
    - eexists. reflexivity.
    - unfold bind at 1.
      assert (Hp : exists st1, read_manifest bucket_name p st0 = (Ret tt, st1)).
      { unfold read_manifest, bind, try_except, request, ret, lift, append_snapshot. simpl.
        fold (manifest_path_of p).
        destruct (get_contents_as_string _ _) as [data | e] eqn:Ef; simpl.
        - destruct (Snapshot.load_manifest_file data bucket_name) as [s | e'] eqn:El; simpl.
          + destruct (snapshots (fst st0)); simpl; eexists; reflexivity.
          + rewrite (Hload p data e' (Hin p ltac:(now left)) Ef El). eexists. reflexivity.
        - rewrite (Hfetch p e (Hin p ltac:(now left)) Ef). simpl. eexists. reflexivity. }
      destruct Hp as [st1 ->]. apply IH. intros q Hq. apply Hin. now right. }
  unfold _read_s3, bind, self_, request, set_snapshots, lift. simpl. rewrite Hc.
  fold (listing_prefix (fst st)). fold prefix. fold bucket_name. rewrite Hlist.
  fold (entries prefix names).
  match goal with |- context [for_each ?ps ?f ?s0] =>
    destruct (Hloop ps s0 (fun p Hp => Hp)) as [st1 Eloop] end.
  rewrite Eloop.
  pose proof (fun Hx => for_each_read_manifest_returns _ _ _ _ [] Hx Eloop) as Hr.
  destruct (Hr eq_refl) as (Hsn & _).
  rewrite Hsn. simpl.
  assert (Hret : returns (sorted_reverse (omap (decoded bucket_name) (entries prefix names)))).
  { unfold sorted_reverse. destruct Hsort as [Hshort | Hall].
    - apply Nat.ltb_lt in Hshort. rewrite Hshort. eexists. reflexivity.
    - destruct (_ <? 2)%nat; [eexists; reflexivity |].
      destruct (res_map_returns _ _ Hall) as [keys ->]. eexists. reflexivity. }
  destruct Hret as [l ->]. reflexivity.
Qed.

End PopulationFacts.

(** ** Reading the registry *)

Section LookupFacts.
Context `{JsonCodec} `{Clock} `{ObjectStore}.
Import SnapshotCollection.

Lemma read_s3_leaves_a_list (st st' : state) :
  _read_s3 st = (Ret tt, st') -> exists l, snapshots (fst st') = Some l.
Proof.
  intros E. destruct (cached (fst st)) eqn:Hc.
  - rewrite read_s3_cached in E by assumption. injection E as <-.
    unfold cached in Hc. destruct (snapshots (fst st)); [eauto | discriminate].
  - destruct (read_s3_populates _ _ Hc E) as (_ & l & _ & El). eauto.
Qed.

(** X4. After a population that returns, [get_latest] returns the head of the
    cached list and raises [IndexError] when the list is empty.  In a state
    reached through accesses that returned, no snapshot of the registry
    has a later timestamp than the one returned. *)
Theorem get_latest_is_the_head (st st' : state) :
  _read_s3 st = (Ret tt, st') ->
  match snapshots (fst st') with
  | Some (s :: l) =>
      get_latest st = (Ret s, st')
      /\ (reachable st ->
          forall s' ts ts', s' ∈ l ->
            Snapshot.unix_time_name s = Ret ts ->
            Snapshot.unix_time_name s' = Ret ts' -> ts' <= ts)
  | Some [] => get_latest st = (Raise IndexError, st')
  | None => False
  end.
Proof.
  intros E. destruct (read_s3_leaves_a_list _ _ E) as [l El].
  unfold get_latest, bind, self_, ret, raise. rewrite E, El. simpl.
  destruct l as [| s l]; [reflexivity |]. split; [reflexivity |].
  intros Hreach s' ts ts' Hs' Hts Hts'.
  pose proof (read_s3_cache_sorted st st' (reachable_cache_sorted st Hreach) E _ El) as Hsorted.
  apply list_elem_of_lookup in Hs'. destruct Hs' as [j Hj].
  apply (Hsorted 0%nat (S j) s s' ts ts'); [lia | reflexivity | exact Hj | exact Hts | exact Hts'].
Qed.

Lemma head_filter_first {A : Type} (P : A -> bool) (l : list A) :
  match head (filter (fun x => P x) l) with
  | Some s =>
      exists i, l !! i = Some s /\ P s = true
        /\ forall j s', (j < i)%nat -> l !! j = Some s' -> P s' = false
  | None => forall s', s' ∈ l -> P s' = false
  end.
Proof.
  induction l as [| x l IH].
  - simpl. intros s' Hs'. inversion Hs'.
  - rewrite filter_cons. destruct (decide (P x)) as [Hx | Hx].
    + simpl. exists 0%nat. split; [reflexivity |]. split; [now apply Is_true_true |].
      intros j s' Hj. lia.
    + assert (Px : P x = false) by (destruct (P x); [destruct Hx; exact I | reflexivity]).
      destruct (head (filter (fun x => P x) l)) as [s |].
      * destruct IH as (i & Hi & Hs & Hbefore). exists (S i).
        split; [exact Hi |]. split; [exact Hs |].
        intros [| j] s' Hj Hs'; simpl in Hs'.
        -- now injection Hs' as <-.
        -- apply (Hbefore j); [lia | exact Hs'].
      * intros s' Hs'. apply elem_of_cons in Hs'. destruct Hs' as [-> | Hs']; auto.
Qed.

(** X5. [get_snapshot_by_name] answers with the first snapshot of the cached
    list that carries the name, and with nothing (the empty list of the
    source) when no snapshot carries it. *)
Theorem get_snapshot_by_name_finds_the_first
    (name : pyval) (st st' : state) (r : option Snapshot.t) :
  get_snapshot_by_name name st = (Ret r, st') ->
  exists l, snapshots (fst st') = Some l
    /\ match r with
       | Some s =>
           exists i, l !! i = Some s /\ Snapshot.name s = name
             /\ forall j s', (j < i)%nat -> l !! j = Some s' -> Snapshot.name s' <> name
       | None => forall s', s' ∈ l -> Snapshot.name s' <> name
       end.
Proof.
  unfold get_snapshot_by_name, bind, ret.
  destruct (__iter__ st) as [[l |] st1] eqn:Eit; [| discriminate].
  intros E. injection E as <- <-.
  destruct (iter_returns_cache _ _ _ Eit) as [_ El].
  exists l. split; [exact El |].
  pose proof (head_filter_first (fun s => py_eq (Snapshot.name s) name) l) as Hf.
  destruct (head _) as [s |].
  - destruct Hf as (i & Hi & Hs & Hbefore). exists i. split; [exact Hi |].
    split; [now apply py_eq_spec |].
    intros j s' Hj Hs' Heq. apply py_eq_spec in Heq.
    rewrite (Hbefore j s' Hj Hs') in Heq. discriminate.
  - intros s' Hs' Heq. apply py_eq_spec in Heq. rewrite (Hf s' Hs') in Heq. discriminate.
Qed.

End LookupFacts.

(** ** More on the backup run *)

Section BackupRunFacts.
Context `{BackupWorker.Cluster} `{JsonCodec}.
Import BackupWorker.

Lemma prepare_emits (self : t) (s : Snapshot.t) (delete_old_snapshots delete_backups : bool) :
  emits (preparing_action self s delete_old_snapshots delete_backups)
    (prepare self s delete_old_snapshots delete_backups).
Proof.
  unfold prepare. apply emits_bind; [| intros _; apply emits_bind; [| intros _]].
  - unfold when. destruct delete_backups; [| apply emits_ret]. simpl truthy.
    destruct (String.eqb_spec (cassandra_data_path self) ""); simpl; [apply emits_ret |].
    destruct (truthy (Snapshot.keyspaces s)) eqn:Hk; simpl; [| apply emits_ret].
    unfold clear_cluster_backups.
    apply emits_bind; [| intros _; apply emits_ret].
    apply emits_act. left. auto.
  - unfold when. destruct delete_old_snapshots; [| apply emits_ret].
    unfold clear_cluster_snapshot.
    apply emits_bind; [| intros _; apply emits_ret].
    apply emits_act. right. auto.
  - apply emits_bind; [apply emits_lift | intros _; apply emits_ret].
Qed.

(** X6. The steps before the point-in-time snapshot clear the backups
    directories only when asked to and when both the data path and the
    keyspaces are set, and clear the old snapshots only when asked to;
    they do nothing else.  When the actions return, these clearings are
    exactly what happens, in this order. *)
Theorem prepare_clears_only_what_is_known
    (self : t) (s : Snapshot.t) (delete_old_snapshots delete_backups : bool) :
  emits (preparing_action self s delete_old_snapshots delete_backups)
    (prepare self s delete_old_snapshots delete_backups)
  /\ ((forall h a, returns (respond h a)) ->
      forall history,
        snd (prepare self s delete_old_snapshots delete_backups history)
        = (history
           ++ (if delete_backups
                  && negb (String.eqb (cassandra_data_path self) "")
                  && truthy (Snapshot.keyspaces s)
               then [Execute (ClearNodeBackups s)] else [])
           ++ (if delete_old_snapshots
               then [Execute (ClearNodeSnapshot (PyStr ALL_SNAPSHOTS))] else []))%list).
Proof.
  split.
  - apply prepare_emits.
  - intros Hok history. unfold prepare, when, clear_cluster_backups, clear_cluster_snapshot,
      bind, act, ret, lift. simpl truthy.
    destruct delete_backups; simpl.
    + destruct (String.eqb (cassandra_data_path self) ""); simpl.
      * destruct delete_old_snapshots; simpl.
        -- destruct (Hok history (Execute (ClearNodeSnapshot (PyStr ALL_SNAPSHOTS)))) as [o ->].
           destruct (as_str TypeError (Snapshot.name s)); reflexivity.
        -- destruct (as_str TypeError (Snapshot.name s)); simpl; now rewrite app_nil_r.
      * destruct (truthy (Snapshot.keyspaces s)); simpl.
        -- destruct (Hok history (Execute (ClearNodeBackups s))) as [o ->].
           destruct delete_old_snapshots; simpl.
           ++ destruct (Hok (history ++ [Execute (ClearNodeBackups s)])%list
                          (Execute (ClearNodeSnapshot (PyStr ALL_SNAPSHOTS)))) as [o' ->].
              destruct (as_str TypeError (Snapshot.name s)); simpl; now rewrite <- app_assoc.
           ++ destruct (as_str TypeError (Snapshot.name s)); reflexivity.
        -- destruct delete_old_snapshots; simpl.
           ++ destruct (Hok history (Execute (ClearNodeSnapshot (PyStr ALL_SNAPSHOTS)))) as [o ->].
              destruct (as_str TypeError (Snapshot.name s)); reflexivity.
           ++ destruct (as_str TypeError (Snapshot.name s)); simpl; now rewrite app_nil_r.
    + destruct delete_old_snapshots; simpl.
      * destruct (Hok history (Execute (ClearNodeSnapshot (PyStr ALL_SNAPSHOTS)))) as [o ->].
        destruct (as_str TypeError (Snapshot.name s)); reflexivity.
      * destruct (as_str TypeError (Snapshot.name s)); simpl; now rewrite app_nil_r.
Qed.

Lemma snapshot_run (self : t) (s : Snapshot.t)
    (keep_new_snapshot delete_old_snapshots delete_backups : bool) (history : list action) :
  snapshot self s keep_new_snapshot delete_old_snapshots delete_backups history
  = match prepare self s delete_old_snapshots delete_backups history with
    | (Raise e, prepared) => (Raise e, prepared)
    | (Ret _, prepared) =>
        let start := Execute (NodeStartBackup s false) in
        let upload := Execute (UploadNodeBackups s false) in
        let clear := Execute (ClearNodeSnapshot (Snapshot.name s)) in
        let started := (prepared ++ [start])%list in
        let uploaded := (started ++ [upload])%list in
        match respond prepared start with
        | Raise e =>
            (match respond started clear with
             | Ret _ => Raise e
             | Raise e' => Raise e'
             end, (started ++ [clear])%list)
        | Ret _ =>
            match respond started upload with
            | Raise e =>
                if keep_new_snapshot then (Raise e, uploaded)
                else (match respond uploaded clear with
                      | Ret _ => Raise e
                      | Raise e' => Raise e'
                      end, (uploaded ++ [clear])%list)
            | Ret _ =>
                if keep_new_snapshot then publish self s uploaded
                else match respond uploaded clear with
                     | Ret _ => publish self s (uploaded ++ [clear])%list
                     | Raise e' => (Raise e', (uploaded ++ [clear])%list)
                     end
            end
        end
    end.
Proof.
  unfold snapshot. unfold bind at 1.
  destruct (prepare self s delete_old_snapshots delete_backups history) as [[[] | e] prepared];
    [| reflexivity].
  unfold bind at 1. unfold try_except, start_cluster_backup.
  unfold bind at 1. unfold act at 1. cbv zeta.
  destruct (respond prepared _) as [o | e].
  - unfold ret at 1. cbv beta iota. unfold bind at 1. rewrite upload_then_clear_run. cbv zeta.
    destruct (respond _ (Execute (UploadNodeBackups s false))) as [u | e];
      destruct keep_new_snapshot; try reflexivity;
      destruct (respond _ (Execute (ClearNodeSnapshot _))); reflexivity.
  - unfold clear_cluster_snapshot, bind, act, raise, ret.
    destruct (respond _ (Execute (ClearNodeSnapshot _))); reflexivity.
Qed.

Lemma prepare_emits_no_metadata (self : t) (s : Snapshot.t)
    (delete_old_snapshots delete_backups : bool) (history prepared : list action)
    (r : res unit) :
  prepare self s delete_old_snapshots delete_backups history = (r, prepared) ->
  exists rest, prepared = (history ++ rest)%list /\ Forall (fun a => ~ is_metadata a) rest.
Proof.
  intros E.
  destruct (prepare_emits self s delete_old_snapshots delete_backups history)
    as (rest & Er & Fr).
  rewrite E in Er. simpl in Er. exists rest. split; [exact Er |].
  eapply Forall_impl; [exact Fr |].
  intros a [(-> & _) | (-> & _)]; simpl; tauto.
Qed.

(** X7. Nothing is written to the object store and no command of the
    publication runs unless the steps before, the point-in-time snapshot
    and the upload all returned, and, when the new snapshot is not kept,
    its clearing returned too: a bucket that holds the manifest of a run
    holds the files the upload sent. *)
Theorem snapshot_publishes_only_after_upload
    (self : t) (s : Snapshot.t) (keep_new_snapshot delete_old_snapshots delete_backups : bool)
    (history : list action) (a : action) :
  let run := snapshot self s keep_new_snapshot delete_old_snapshots delete_backups history in
  is_metadata a ->
  a ∈ drop (length history) (snd run) ->
  exists prepared,
    prepare self s delete_old_snapshots delete_backups history = (Ret tt, prepared)
    /\ returns (respond prepared (Execute (NodeStartBackup s false)))
    /\ returns (respond (prepared ++ [Execute (NodeStartBackup s false)])%list
                  (Execute (UploadNodeBackups s false)))
    /\ (keep_new_snapshot = false ->
        returns (respond (prepared ++ [Execute (NodeStartBackup s false);
                                       Execute (UploadNodeBackups s false)])%list
                   (Execute (ClearNodeSnapshot (Snapshot.name s))))).
Proof.
  intros run Hmeta Hin. unfold run in Hin. rewrite snapshot_run in Hin.
  destruct (prepare self s delete_old_snapshots delete_backups history)
    as [[[] | e] prepared] eqn:Eprep.
  2: { destruct (prepare_emits_no_metadata _ _ _ _ _ _ _ Eprep) as (rest & -> & Fr).
       simpl in Hin. rewrite drop_app_length in Hin.
       rewrite Forall_forall in Fr. destruct (Fr a Hin Hmeta). }
  destruct (prepare_emits_no_metadata _ _ _ _ _ _ _ Eprep) as (rest & -> & Fr).
  rewrite Forall_forall in Fr.
  assert (Hnot : forall tail, a ∈ drop (length history) (history ++ rest ++ tail)%list ->
                              Forall (fun x => ~ is_metadata x) tail -> False).
  { intros tail Ha Ft. rewrite drop_app_length in Ha.
    apply elem_of_app in Ha. destruct Ha as [Ha | Ha]; [exact (Fr a Ha Hmeta) |].
    rewrite Forall_forall in Ft. exact (Ft a Ha Hmeta). }
  exists (history ++ rest)%list. split; [reflexivity |]. cbv zeta in Hin.
  destruct (respond (history ++ rest)%list (Execute (NodeStartBackup s false))) as [o | e].
  2: { exfalso. simpl in Hin. rewrite <- !app_assoc in Hin.
       apply (Hnot _ Hin). repeat constructor; simpl; tauto. }
  split; [eexists; reflexivity |].
  destruct (respond _ (Execute (UploadNodeBackups s false))) as [u | e].
  2: { exfalso. destruct keep_new_snapshot; simpl in Hin;
         rewrite <- !app_assoc in Hin; apply (Hnot _ Hin); repeat constructor; simpl; tauto. }
  split; [eexists; reflexivity |].
  intros ->. rewrite <- app_assoc. simpl.
  rewrite <- !app_assoc in Hin. simpl in Hin.
  destruct (respond _ (Execute (ClearNodeSnapshot _))) as [c | e]; [eexists; reflexivity |].
  exfalso. simpl in Hin. rewrite <- ?app_assoc in Hin.
  apply (Hnot _ Hin). repeat constructor; simpl; tauto.
Qed.

Lemma append_inj_l (a b c : string) : a +:+ b = a +:+ c -> b = c.
Proof.
  induction a as [| x a IH]; simpl; [auto |]. intros E. injection E as E. auto.
Qed.

Lemma emits_bind_lift {A B : Type} (P : action -> Prop) (r : res A)
    (k : A -> M (list action) B) :
  (forall a, r = Ret a -> emits P (k a)) -> emits P (bind (lift r) k).
Proof.
  intros Hk h. unfold bind, lift. destruct r as [a | e].
  - apply Hk. reflexivity.
  - exists []. split; [simpl; now rewrite app_nil_r | constructor].
Qed.

Lemma emits_schema_part (P : action -> Prop) (self : t) (s : Snapshot.t) :
  (forall cmd, P (RunRemotely cmd)) ->
  (forall base file c, Snapshot.base_path s = Ret base ->
     String.prefix "schema" file = true ->
     P (WriteOnS3 (Snapshot.s3_bucket s) (str_join "/" [base; file]) c)) ->
  emits P (when (backup_schema self) (write_schema self s)).
Proof.
  intros Hrun Hwrite.
  assert (Hget : forall ks, emits P (get_keyspace_schema self ks)).
  { intros ks. unfold get_keyspace_schema.
    apply emits_bind; [apply emits_act, Hrun | intros out; apply emits_ret]. }
  assert (Hput : forall base file c, Snapshot.base_path s = Ret base ->
            String.prefix "schema" file = true ->
            emits P (write_on_s3 (Snapshot.s3_bucket s) (str_join "/" [base; file]) c)).
  { intros base file c Hb Hf. unfold write_on_s3.
    apply emits_bind; [apply emits_act, Hwrite; assumption | intros _; apply emits_ret]. }
  unfold when. destruct (backup_schema self); [| apply emits_ret].
  unfold write_schema. destruct (truthy (Snapshot.keyspaces s)).
  - apply emits_bind; [apply emits_lift | intros kss].
    apply emits_for_each. intros ks.
    apply emits_bind; [apply Hget | intros c].
    apply emits_bind_lift. intros base Hb. now apply Hput.
  - apply emits_bind; [apply Hget | intros c].
    apply emits_bind_lift. intros base Hb. now apply Hput.
Qed.

Lemma emits_ring_part (P : action -> Prop) (self : t) (s : Snapshot.t) :
  (forall cmd, P (RunRemotely cmd)) ->
  (forall base c, Snapshot.base_path s = Ret base ->
     P (WriteOnS3 (Snapshot.s3_bucket s) (str_join "/" [base; "ring"]) c)) ->
  emits P (write_ring_description self s).
Proof.
  intros Hrun Hwrite. unfold write_ring_description, get_ring_description.
  apply emits_bind; [apply emits_act, Hrun | intros c].
  apply emits_bind_lift. intros base Hb. unfold write_on_s3.
  apply emits_bind; [apply emits_act, Hwrite; assumption | intros _; apply emits_ret].
Qed.

Lemma update_snapshot_emits_incremental (self : t) (s : Snapshot.t) :
  emits (incremental_action s) (update_snapshot self s).
Proof.
  assert (Hrun : forall cmd, incremental_action s (RunRemotely cmd)) by (intros; exact I).
  unfold update_snapshot.
  apply emits_bind; [apply emits_lift | intros _].
  apply emits_bind; [| intros _].
  { unfold start_cluster_backup.
    apply emits_bind; [apply emits_act; simpl; auto | intros _; apply emits_ret]. }
  apply emits_bind; [| intros _].
  { unfold upload_cluster_backups.
    apply emits_bind; [apply emits_act; simpl; auto | intros _; apply emits_ret]. }
  apply emits_bind; [| intros _].
  - apply emits_ring_part; [exact Hrun |].
    intros base c Hb base' Hb' E. rewrite Hb in Hb'. injection Hb' as <-.
    simpl in E. apply append_inj_l in E. discriminate.
  - apply emits_schema_part; [exact Hrun |].
    intros base file c Hb Hf base' Hb' E. rewrite Hb in Hb'. injection Hb' as <-.
    simpl in E. apply append_inj_l, append_inj_l in E. subst file. discriminate.
Qed.

(** X8. An incremental run takes no other action than the flush, the
    incremental upload, remote commands and writes at other keys than the
    manifest of the snapshot: it clears no snapshot and no backups
    directory and leaves the published manifest alone.  When the flush
    raises, the run ends with that exception and nothing is cleaned up. *)
Theorem update_snapshot_leaves_the_manifest_alone (self : t) (s : Snapshot.t) :
  emits (incremental_action s) (update_snapshot self s)
  /\ (forall history n e,
        Snapshot.name s = PyStr n ->
        respond history (Execute (NodeStartBackup s true)) = Raise e ->
        update_snapshot self s history
        = (Raise e, (history ++ [Execute (NodeStartBackup s true)])%list)).
Proof.
  split; [apply update_snapshot_emits_incremental |].
  intros history n e Hn Hflush. unfold update_snapshot, bind, lift, start_cluster_backup, act.
  rewrite Hn. simpl. unfold bind. now rewrite Hflush.
Qed.

End BackupRunFacts.

(** ** From the backup run to the registry *)

Section PublishFacts.
Context `{BackupWorker.Cluster} `{JsonCodec} `{ObjectStore}.
Import BackupWorker.

Lemma prepare_returns (self : t) (s : Snapshot.t) (delete_old_snapshots delete_backups : bool)
    (history : list action) (n : string) :
  Snapshot.name s = PyStr n ->
  (forall h a, returns (respond h a)) ->
  fst (prepare self s delete_old_snapshots delete_backups history) = Ret tt.
Proof.
  intros Hn Hok. unfold prepare, when, clear_cluster_backups, clear_cluster_snapshot,
    bind, act, ret, lift. rewrite Hn. simpl.
  destruct delete_backups; simpl;
    [destruct (String.eqb (cassandra_data_path self) ""); simpl;
       [| destruct (truthy (Snapshot.keyspaces s)); simpl;
            [destruct (Hok history (Execute (ClearNodeBackups s))) as [o ->] |]] |];
    destruct delete_old_snapshots; simpl; try reflexivity;
    match goal with |- context [respond ?h ?a] => destruct (Hok h a) as [o' ->] end;
    reflexivity.
Qed.

Lemma write_ring_description_returns (self : t) (s : Snapshot.t) (history : list action)
    (base : string) :
  Snapshot.base_path s = Ret base ->
  (forall h a, returns (respond h a)) ->
  exists ring,
    write_ring_description self s history
    = (Ret tt, (history ++ [RunRemotely (nodetool_path self +:+ " ring");
                            WriteOnS3 (Snapshot.s3_bucket s) (base +:+ "/ring") ring])%list).
Proof.
  intros Hbase Hok.
  unfold write_ring_description, get_ring_description, run_remotely, write_on_s3,
    bind, act, lift, ret.
  destruct (Hok history (RunRemotely (nodetool_path self +:+ " ring"))) as [ring ->].
  rewrite Hbase.
  match goal with |- context [respond ?h ?a] => destruct (Hok h a) as [w ->] end.
  exists ring. rewrite <- app_assoc. reflexivity.
Qed.

Lemma write_snapshot_manifest_returns (s : Snapshot.t) (history : list action)
    (base data : string) :
  Snapshot.base_path s = Ret base ->
  (forall h a, returns (respond h a)) ->
  Snapshot.dump_manifest_file s = Ret data ->
  write_snapshot_manifest s history
  = (Ret tt, (history ++ [WriteOnS3 (Snapshot.s3_bucket s) (base +:+ "/manifest.json") data])%list).
Proof.
  intros Hbase Hok Hdump.
  unfold write_snapshot_manifest, write_on_s3, bind, act, lift, ret.
  rewrite Hdump, Hbase.
  match goal with |- context [respond ?h ?a] => destruct (Hok h a) as [w ->] end.
  reflexivity.
Qed.

Lemma publish_writes_the_manifest (self : t) (s : Snapshot.t) (history : list action)
    (n bp data : string) :
  Snapshot.name s = PyStr n ->
  Snapshot._base_path s = PyStr bp ->
  (forall h a, returns (respond h a)) ->
  Snapshot.dump_manifest_file s = Ret data ->
  exists ring rest,
    snd (publish self s history)
    = (history
       ++ [RunRemotely (nodetool_path self +:+ " ring");
           WriteOnS3 (Snapshot.s3_bucket s) ((bp +:+ "/" +:+ n) +:+ "/ring") ring;
           WriteOnS3 (Snapshot.s3_bucket s) ((bp +:+ "/" +:+ n) +:+ "/manifest.json") data]
       ++ rest)%list.
Proof.
  intros Hn Hbp Hok Hdump.
  assert (Hbase : Snapshot.base_path s = Ret (bp +:+ "/" +:+ n)).
  { unfold Snapshot.base_path. rewrite Hn, Hbp. reflexivity. }
  unfold publish. unfold bind at 1.
  destruct (write_ring_description_returns self s history _ Hbase Hok) as [ring ->].
  unfold bind at 1.
  rewrite (write_snapshot_manifest_returns s _ _ data Hbase Hok Hdump).
  match goal with |- context [when ?b ?m ?h] =>
    destruct (emits_schema_part (fun _ => True) self s (fun _ => I) (fun _ _ _ _ _ => I) h)
      as (rest & -> & _) end.
  exists ring, rest. rewrite <- !app_assoc. reflexivity.
Qed.

Lemma snapshot_writes_the_manifest
    (self : t) (s : Snapshot.t) (keep_new_snapshot delete_old_snapshots delete_backups : bool)
    (history : list action) (n bp data : string) :
  Snapshot.name s = PyStr n ->
  Snapshot._base_path s = PyStr bp ->
  (forall h a, returns (respond h a)) ->
  Snapshot.dump_manifest_file s = Ret data ->
  WriteOnS3 (Snapshot.s3_bucket s) ((bp +:+ "/" +:+ n) +:+ "/manifest.json") data
  ∈ snd (snapshot self s keep_new_snapshot delete_old_snapshots delete_backups history).
Proof.
  intros Hn Hbp Hok Hdump. rewrite snapshot_run.
  pose proof (prepare_returns self s delete_old_snapshots delete_backups history n Hn Hok) as Hp.
  destruct (prepare self s delete_old_snapshots delete_backups history) as [r prepared].
  simpl in Hp. subst r. cbv zeta.
  destruct (Hok prepared (Execute (NodeStartBackup s false))) as [o ->].
  match goal with |- context [respond ?h (Execute (UploadNodeBackups s false))] =>
    destruct (Hok h (Execute (UploadNodeBackups s false))) as [u ->] end.
  assert (Hpub : forall h,
    WriteOnS3 (Snapshot.s3_bucket s) ((bp +:+ "/" +:+ n) +:+ "/manifest.json") data
    ∈ snd (publish self s h)).
  { intros h. destruct (publish_writes_the_manifest self s h n bp data Hn Hbp Hok Hdump)
      as (ring & rest & ->).
    apply elem_of_app. right. apply elem_of_app. left.
    apply elem_of_cons. right. apply elem_of_cons. right. apply elem_of_cons. now left. }
  destruct keep_new_snapshot; [apply Hpub |].
  match goal with |- context [respond ?h (Execute (ClearNodeSnapshot ?x))] =>
    destruct (Hok h (Execute (ClearNodeSnapshot x))) as [c ->] end.
  apply Hpub.
Qed.

(** X9. A full run in which every action returns, for a snapshot whose name
    and base path are strings, writes the manifest of the snapshot at the
    key [<base path>/<name>/manifest.json], after the ring description.
    When the JSON codec reads back the dictionary it wrote and the object
    store holds what the run wrote, the registry decodes the entry
    [<base path>/<name>] to that very snapshot. *)
Theorem published_manifest_is_read_back
    (self : t) (s : Snapshot.t) (keep_new_snapshot delete_old_snapshots delete_backups : bool)
    (history : list action) (n bp data : string) :
  Snapshot.name s = PyStr n ->
  Snapshot._base_path s = PyStr bp ->
  (forall h a, returns (respond h a)) ->
  Snapshot.dump_manifest_file s = Ret data ->
  json_loads data = Ret (DocDict (Snapshot.manifest_data s)) ->
  let run := snapshot self s keep_new_snapshot delete_old_snapshots delete_backups history in
  WriteOnS3 (Snapshot.s3_bucket s) ((bp +:+ "/" +:+ n) +:+ "/manifest.json") data ∈ snd run
  /\ ((forall b p c, WriteOnS3 b p c ∈ snd run ->
         get_contents_as_string (get_bucket b) p = Ret c) ->
      decoded (Snapshot.s3_bucket s) (bp +:+ "/" +:+ n) = Some s).
Proof.
  intros Hn Hbp Hok Hdump Hloads run.
  assert (Hwritten : WriteOnS3 (Snapshot.s3_bucket s)
                       ((bp +:+ "/" +:+ n) +:+ "/manifest.json") data ∈ snd run).
  { now apply (snapshot_writes_the_manifest self s _ _ _ history n bp data). }
  split; [exact Hwritten |].
  intros Hstore. unfold decoded.
  change (manifest_path_of (bp +:+ "/" +:+ n)) with ((bp +:+ "/" +:+ n) +:+ "/manifest.json").
  rewrite (Hstore _ _ _ Hwritten).
  unfold Snapshot.load_manifest_file. rewrite Hloads.
  destruct (manifest_data_lookups s) as (E1 & E2 & E3 & E4 & E5).
  cbn [res_bind]. rewrite E1. cbn [res_bind]. rewrite E2. cbn [res_bind]. rewrite E3.
  cbn [res_bind]. rewrite E4. cbn [res_bind]. rewrite E5. cbn [res_bind].
  now destruct s.
Qed.

End PublishFacts.

(** ** Where a run writes *)

Section WriteFacts.
Context `{BackupWorker.Cluster} `{JsonCodec}.
Import BackupWorker.

Lemma list_ascii_app (a b : string) :
  list_ascii_of_string (a +:+ b)
  = (list_ascii_of_string a ++ list_ascii_of_string b)%list.
Proof.
  induction a as [| x a IH]; [reflexivity |].
  change (x :: list_ascii_of_string (a +:+ b)
          = x :: (list_ascii_of_string a ++ list_ascii_of_string b)%list).
  now rewrite IH.
Qed.

Lemma append_assoc (a b c : string) : (a +:+ b) +:+ c = a +:+ b +:+ c.
Proof.
  induction a as [| x a IH]; [reflexivity |].
  change (String x ((a +:+ b) +:+ c) = String x (a +:+ b +:+ c)). now rewrite IH.
Qed.

Lemma append_inj_r (a b c : string) : a +:+ c = b +:+ c -> a = b.
Proof.
  intros E. apply (f_equal list_ascii_of_string) in E.
  rewrite !list_ascii_app in E. apply app_inv_tail in E.
  apply (f_equal string_of_list_ascii) in E.
  now rewrite !string_of_list_ascii_of_string in E.
Qed.

Lemma append_last_char (a b x y : string) (c d : ascii) :
  a +:+ x +:+ String c "" = b +:+ y +:+ String d "" -> c = d.
Proof.
  intros E. apply (f_equal list_ascii_of_string) in E.
  rewrite !list_ascii_app in E. change (list_ascii_of_string (String c "")) with [c] in E.
  change (list_ascii_of_string (String d "")) with [d] in E. rewrite !app_assoc in E.
  apply app_inj_tail in E. tauto.
Qed.

Lemma manifest_key_of_entry (entry base file : string) :
  metadata_file file ->
  manifest_path_of entry = str_join "/" [base; file] ->
  entry = base /\ file = "manifest.json".
Proof.
  unfold manifest_path_of.
  change (str_join "/" [entry; "manifest.json"]) with (entry +:+ "/manifest.jso" +:+ "n").
  change (str_join "/" [base; file]) with (base +:+ "/" +:+ file).
  intros Hfile E.
  destruct Hfile as [-> | [-> | [-> | [ks ->]]]].
  - exfalso.
    assert (X : "n"%char = "g"%char); [| discriminate X].
    apply (append_last_char entry base "/manifest.jso" "/rin"). exact E.
  - split; [| reflexivity]. now apply (append_inj_r _ _ "/manifest.json").
  - exfalso.
    assert (X : "n"%char = "l"%char); [| discriminate X].
    apply (append_last_char entry base "/manifest.jso" "/schema.cd"). exact E.
  - exfalso.
    assert (X : "n"%char = "l"%char); [| discriminate X].
    apply (append_last_char entry base "/manifest.jso" ("/schema_" +:+ ks +:+ ".cd")).
    rewrite E. f_equal. rewrite !append_assoc. reflexivity.
Qed.

Lemma emits_impl {A : Type} (P Q : action -> Prop) (m : M (list action) A) :
  (forall a, P a -> Q a) -> emits P m -> emits Q m.
Proof.
  intros HPQ Hm h. destruct (Hm h) as (rest & E & F). exists rest.
  split; [exact E |]. eapply Forall_impl; [exact F | exact HPQ].
Qed.

Lemma publish_writes_under (self : t) (s : Snapshot.t) :
  emits (writes_under s) (publish self s).
Proof.
  assert (Hrun : forall cmd, writes_under s (RunRemotely cmd)) by (intros; exact I).
  unfold publish.
  apply emits_bind; [| intros _; apply emits_bind; [| intros _]].
  - apply emits_ring_part; [exact Hrun |]. intros base c Hb. simpl.
    split; [reflexivity |]. exists base, "ring". unfold metadata_file. auto.
  - unfold write_snapshot_manifest.
    apply emits_bind; [apply emits_lift | intros data].
    apply emits_bind_lift. intros base Hb. unfold write_on_s3.
    apply emits_bind; [| intros _; apply emits_ret].
    apply emits_act. simpl. split; [reflexivity |].
    exists base, "manifest.json". unfold metadata_file. auto.
  - assert (Hput : forall base file c, Snapshot.base_path s = Ret base ->
              metadata_file file ->
              emits (writes_under s)
                (write_on_s3 (Snapshot.s3_bucket s) (str_join "/" [base; file]) c)).
    { intros base file c Hb Hf. unfold write_on_s3.
      apply emits_bind; [| intros _; apply emits_ret].
      apply emits_act. simpl. split; [reflexivity |]. exists base, file. auto. }
    assert (Hget : forall ks, emits (writes_under s) (get_keyspace_schema self ks)).
    { intros ks. unfold get_keyspace_schema.
      apply emits_bind; [apply emits_act, Hrun | intros out; apply emits_ret]. }
    unfold when. destruct (backup_schema self); [| apply emits_ret].
    unfold write_schema. destruct (truthy (Snapshot.keyspaces s)).
    + apply emits_bind; [apply emits_lift | intros kss].
      apply emits_for_each. intros ks.
      apply emits_bind; [apply Hget | intros c].
      apply emits_bind_lift. intros base Hb. apply Hput; [exact Hb |].
      unfold metadata_file. eauto 6.
    + apply emits_bind; [apply Hget | intros c].
      apply emits_bind_lift. intros base Hb. apply Hput; [exact Hb |].
      unfold metadata_file. auto.
Qed.

Lemma snapshot_emits (P : action -> Prop) (self : t) (s : Snapshot.t)
    (keep_new_snapshot delete_old_snapshots delete_backups : bool) :
  (forall task, P (Execute task)) ->
  emits P (publish self s) ->
  emits P (snapshot self s keep_new_snapshot delete_old_snapshots delete_backups).
Proof.
  intros Hexec Hpub history. rewrite snapshot_run.
  destruct (prepare_emits self s delete_old_snapshots delete_backups history)
    as (rest & Er & Fr).
  assert (Fr' : Forall P rest).
  { eapply Forall_impl; [exact Fr |]. intros a [(-> & _) | (-> & _)]; apply Hexec. }
  destruct (prepare self s delete_old_snapshots delete_backups history) as [[[] | e] prepared];
    simpl in Er; subst prepared; [| exists rest; auto].
  cbv zeta.
  assert (Hdone : forall (r : res unit) (tail : list action),
            Forall P tail ->
            exists rest', snd (r, ((history ++ rest) ++ tail)%list) = (history ++ rest')%list
                          /\ Forall P rest').
  { intros r tail Ft. exists (rest ++ tail)%list. simpl. rewrite app_assoc.
    split; [reflexivity |]. apply Forall_app. auto. }
  assert (Hthen : forall tail : list action,
            Forall P tail ->
            exists rest', snd (publish self s ((history ++ rest) ++ tail)%list)
                          = (history ++ rest')%list /\ Forall P rest').
  { intros tail Ft. destruct (Hpub ((history ++ rest) ++ tail)%list) as (more & -> & Fm).
    exists (rest ++ tail ++ more)%list. rewrite <- !app_assoc.
    split; [reflexivity |]. rewrite !Forall_app. auto. }
  destruct (respond (history ++ rest)%list (Execute (NodeStartBackup s false))) as [o | e].
  - destruct (respond _ (Execute (UploadNodeBackups s false))) as [u | e].
    + destruct keep_new_snapshot.
      * rewrite <- (app_assoc (history ++ rest)). apply Hthen. repeat constructor; apply Hexec.
      * destruct (respond _ (Execute (ClearNodeSnapshot _))) as [c | e].
        -- rewrite <- !(app_assoc (history ++ rest)). apply Hthen.
           repeat constructor; apply Hexec.
        -- rewrite <- !(app_assoc (history ++ rest)). apply Hdone.
           repeat constructor; apply Hexec.
    + destruct keep_new_snapshot.
      * rewrite <- !(app_assoc (history ++ rest)). apply Hdone.
        repeat constructor; apply Hexec.
      * rewrite <- !(app_assoc (history ++ rest)). apply Hdone.
        repeat constructor; apply Hexec.
  - rewrite <- !(app_assoc (history ++ rest)). apply Hdone. repeat constructor; apply Hexec.
Qed.

Lemma snapshot_emits_writes_under (self : t) (s : Snapshot.t)
    (keep_new_snapshot delete_old_snapshots delete_backups : bool) :
  emits (writes_under s)
    (snapshot self s keep_new_snapshot delete_old_snapshots delete_backups).
Proof. apply snapshot_emits; [intros task; exact I | apply publish_writes_under]. Qed.

(** X10. Whatever a full run writes to the object store goes into the bucket
    of the snapshot, at [<base path>/<name>/<file>] for a file named
    [ring], [manifest.json], [schema.cdl] or [schema_<keyspace>.cdl].  So
    the key [<entry>/manifest.json] that the registry fetches for a listed
    entry is written by the run only for the entry [<base path>/<name>]
    itself: an entry that differs from it, be it by a trailing slash, is
    looked up at a key the run did not write. *)
Theorem snapshot_writes_under_its_base_path
    (self : t) (s : Snapshot.t) (keep_new_snapshot delete_old_snapshots delete_backups : bool) :
  emits (writes_under s)
    (snapshot self s keep_new_snapshot delete_old_snapshots delete_backups)
  /\ (forall history bucket entry content,
        WriteOnS3 bucket (manifest_path_of entry) content
        ∈ drop (length history)
            (snd (snapshot self s keep_new_snapshot delete_old_snapshots delete_backups history)) ->
        bucket = Snapshot.s3_bucket s /\ Snapshot.base_path s = Ret entry).
Proof.
  pose proof (snapshot_emits_writes_under self s keep_new_snapshot delete_old_snapshots
                delete_backups) as Hemits.
  split; [exact Hemits |].
  intros history bucket entry content Hin.
  destruct (Hemits history) as (rest & E & F). rewrite E, drop_app_length in Hin.
  rewrite Forall_forall in F. destruct (F _ Hin) as (Hb & base & file & Hbase & Hpath & Hfile).
  split; [exact Hb |].
  destruct (manifest_key_of_entry entry base file Hfile Hpath) as [-> _]. exact Hbase.
Qed.

End WriteFacts.

(** ** The backup command *)

Section RunBackupFacts.
Context `{JsonCodec} `{Clock} `{ObjectStore} `{BackupWorker.Cluster} `{Now}.
Import Main.

Lemma run_backup_new (args : backup_args) (st : state) :
  new_snapshot args = true ->
  run_backup args st
  = on_cluster
      (BackupWorker.snapshot (make_worker args) (new_snapshot_of args)
         (keep_new_snapshot args) (delete_old_snapshots args)
         (delete_incremental_backups args)) st.
Proof. intros Hnew. unfold run_backup. rewrite Hnew. reflexivity. Qed.

Lemma run_backup_lookup (args : backup_args) (st : state) :
  new_snapshot args = false ->
  run_backup args st
  = match registry_lookup args (fst st) with
    | (Raise e, (_, log)) => (Raise e, (log, snd st))
    | (Ret (Some s), (_, log)) =>
        on_cluster (BackupWorker.update_snapshot (make_worker args) s) (log, snd st)
    | (Ret None, (_, log)) =>
        on_cluster
          (BackupWorker.snapshot (make_worker args) (new_snapshot_of args) false false false)
          (log, snd st)
    end.
Proof.
  intros Hnew. unfold run_backup, registry_lookup. rewrite Hnew.
  unfold bind at 1. unfold bind at 1. unfold on_collection at 1.
  destruct (SnapshotCollection.get_snapshot_for _ _ _ _) as [[[s |] | e] [c log]];
    reflexivity.
Qed.

(** X11. Without [--new-snapshot] the flags [--keep-new-snapshot],
    [--delete-old-snapshots] and [--delete-incremental-backups] change
    nothing, and a lookup in the registry that fails ends the command
    with the exception of the lookup before anything is done on the
    cluster. *)
Theorem run_backup_flags_need_new_snapshot (args : backup_args) (st : state) :
  new_snapshot args = false ->
  run_backup args st = run_backup (without_deletion_flags args) st
  /\ (forall e c log,
        registry_lookup args (fst st) = (Raise e, (c, log)) ->
        run_backup args st = (Raise e, (log, snd st))).
Proof.
  intros Hnew. split.
  - rewrite !run_backup_lookup by (destruct args; exact Hnew). reflexivity.
  - intros e c log E. rewrite run_backup_lookup by exact Hnew. now rewrite E.
Qed.

(** X12. Without [--new-snapshot], when the registry holds a compatible
    snapshot the command updates the first compatible snapshot of the
    cached list: its hosts are the comma-separated pieces of [--hosts],
    its keyspaces and table those of the command line.  The run flushes
    and uploads incrementally, runs remote commands and writes beside
    the manifest; it clears nothing and names no new snapshot. *)
Theorem run_backup_updates_the_compatible_snapshot
    (args : backup_args) (st : state) (s : Snapshot.t) (c : SnapshotCollection.t)
    (log : list SnapshotCollection.s3_call) :
  new_snapshot args = false ->
  registry_lookup args (fst st) = (Ret (Some s), (c, log)) ->
  compatible s (PyList (map PyStr (str_split "," (hosts args))))
    (PyStr (keyspaces args)) (PyStr (table args))
  /\ (exists l i, SnapshotCollection.snapshots c = Some l /\ l !! i = Some s
        /\ forall j s', (j < i)%nat -> l !! j = Some s' ->
             ~ compatible s' (env_hosts args) (PyStr (keyspaces args)) (PyStr (table args)))
  /\ fst (snd (run_backup args st)) = log
  /\ exists rest,
       snd (snd (run_backup args st)) = (snd st ++ rest)%list
       /\ Forall (incremental_action s) rest.
Proof.
  intros Hnew E.
  assert (Hfirst : exists l, SnapshotCollection.snapshots c = Some l
            /\ SnapshotCollection.first_compatible (env_hosts args) (PyStr (keyspaces args))
                 (PyStr (table args)) l = Some s).
  { unfold registry_lookup, SnapshotCollection.get_snapshot_for, bind, ret in E.
    destruct (SnapshotCollection.__iter__ _) as [[l |] st1] eqn:Eit; [| discriminate].
    injection E as E1 E2. destruct (iter_returns_cache _ _ _ Eit) as [_ El].
    rewrite E2 in El. simpl in El. eauto. }
  destruct Hfirst as (l & El & Ef).
  pose proof (first_compatible_spec (env_hosts args) (PyStr (keyspaces args))
                (PyStr (table args)) l) as Hspec.
  rewrite Ef in Hspec. destruct Hspec as (i & Hi & Hc & Hbefore).
  split; [exact Hc |]. split; [exists l, i; auto |].
  rewrite run_backup_lookup by exact Hnew. rewrite E. unfold on_cluster. simpl.
  destruct (update_snapshot_emits_incremental (make_worker args) s (snd st))
    as (rest & Er & Fr).
  destruct (BackupWorker.update_snapshot (make_worker args) s (snd st)) as [r history].
  simpl in *. split; [reflexivity |]. exists rest. auto.
Qed.

(** X13. With [--new-snapshot] the registry is not consulted, even when it
    holds a compatible snapshot: no request is sent to it, and the run
    is a full snapshot named by the clock, under the base path and in
    the bucket of the command line, with the three flags as given.  When
    every action returns, its manifest is written at
    [<s3 base path>/<time>/manifest.json]. *)
Theorem run_backup_new_snapshot_skips_the_registry
    (args : backup_args) (st : state) :
  new_snapshot args = true ->
  let fresh := new_snapshot_of args in
  let run := run_backup args st in
  fst (snd run) = fst st
  /\ Snapshot.name fresh = PyStr (utcnow_strftime "%Y%m%d%H%M%S")
  /\ (exists rest, snd (snd run) = (snd st ++ rest)%list /\ Forall (writes_under fresh) rest)
  /\ ((forall h a, returns (BackupWorker.respond h a)) ->
      forall data, Snapshot.dump_manifest_file fresh = Ret data ->
        BackupWorker.WriteOnS3 (s3_bucket_name args)
          ((s3_base_path args +:+ "/" +:+ utcnow_strftime "%Y%m%d%H%M%S") +:+ "/manifest.json")
          data ∈ snd (snd run)).
Proof.
  intros Hnew fresh run. unfold run. rewrite run_backup_new by exact Hnew.
  fold fresh. unfold on_cluster.
  pose proof (snapshot_emits_writes_under (make_worker args) fresh (keep_new_snapshot args)
                (delete_old_snapshots args) (delete_incremental_backups args) (snd st)) as Hw.
  pose proof (fun Hok data Hdump =>
    snapshot_writes_the_manifest (make_worker args) fresh (keep_new_snapshot args)
      (delete_old_snapshots args) (delete_incremental_backups args) (snd st)
      (utcnow_strftime "%Y%m%d%H%M%S") (s3_base_path args) data eq_refl eq_refl Hok Hdump) as Hm.
  destruct (BackupWorker.snapshot _ _ _ _ _ _) as [r history]. simpl in *.
  repeat split; auto.
Qed.

End RunBackupFacts.

(** ** Clearing the backups directory of one table *)

Section TableBackupFacts.
Context `{BackupWorker.Cluster} `{JsonCodec}.
Import BackupWorker.

Lemma collect_backups_dirs_table (self : t) (s : Snapshot.t) (table last : string)
    (init : list string) :
  Snapshot.table s = PyStr table ->
  table <> "" ->
  forall (backups_dirs : list string) (history : list action),
    collect_backups_dirs self s (init ++ [last]) backups_dirs history
    = (Ret [os_path_join (cassandra_data_path self) [last] +:+ "/" +:+ table +:+ "/backups"],
       history).
Proof.
  intros Ht Hne.
  assert (Htruthy : truthy (Snapshot.table s) = true).
  { rewrite Ht. simpl. now destruct (String.eqb_spec table ""). }
  induction init as [| ks init IH]; intros acc history; simpl; rewrite Htruthy, Ht.
  - reflexivity.
  - unfold bind at 1. unfold bind at 1. unfold lift at 1. simpl as_str. cbv beta iota.
    unfold ret at 1. cbv beta iota. apply IH.
Qed.

(** X14. For a snapshot that names a table, [clear_node_backups] searches
    nothing: it runs one command, the deletion inside
    [<data path>/<last keyspace>/<table>/backups], and its outcome is
    that of this command.  The backups directories of the table under the
    keyspaces named before the last are left as they are. *)
Theorem clear_node_backups_of_a_table
    (self : t) (s : Snapshot.t) (keyspaces table : string) (init : list string) (last : string)
    (history : list action) :
  Snapshot.keyspaces s = PyStr keyspaces ->
  keyspaces <> "" ->
  str_split "," keyspaces = (init ++ [last])%list ->
  Snapshot.table s = PyStr table ->
  table <> "" ->
  let dir := os_path_join (cassandra_data_path self) [last] +:+ "/" +:+ table +:+ "/backups" in
  clear_node_backups self s history
  = (match respond history (delete_in dir) with
     | Ret _ => Ret tt
     | Raise e => Raise e
     end, (history ++ [delete_in dir])%list).
Proof.
  intros Hks Hne Hsplit Ht Htne dir.
  assert (Htruthy : truthy (Snapshot.keyspaces s) = true).
  { rewrite Hks. simpl. now destruct (String.eqb_spec keyspaces ""). }
  unfold clear_node_backups. rewrite Htruthy, Hks.
  unfold bind at 1 2. unfold lift at 1. simpl as_str. cbv beta iota.
  unfold ret at 1. cbv beta iota. rewrite Hsplit.
  unfold bind at 1. rewrite (collect_backups_dirs_table self s table last init Ht Htne).
  fold dir. simpl for_each. unfold bind, run_remotely, act, ret, delete_in.
  destruct (respond history _); reflexivity.
Qed.

End TableBackupFacts.

(** ** The matcher of a restore *)

Section MatcherFacts.
Import RestoreWorker.

Lemma prefix_split (p s : string) :
  String.prefix p s = true ->
  s = p +:+ drop_chars (String.length p) s.
Proof.
  revert s. induction p as [| a p IH]; intros s; [reflexivity |].
  destruct s as [| b s]; [discriminate |].
  change (String.prefix (String a p) (String b s))
    with (if Ascii.ascii_dec a b then String.prefix p s else false).
  destruct (Ascii.ascii_dec a b) as [-> |]; [| discriminate].
  intros E. change (String b s = String b (p +:+ drop_chars (String.length p) s)).
  f_equal. now apply IH.
Qed.

Lemma prefix_append (p s : string) :
  String.prefix p (p +:+ s) = true /\ drop_chars (String.length p) (p +:+ s) = s.
Proof.
  induction p as [| a p IH]; [split; [now destruct s | reflexivity] |].
  change (String.prefix (String a p) (String a p +:+ s))
    with (if Ascii.ascii_dec a a then String.prefix p (p +:+ s) else false).
  destruct (Ascii.ascii_dec a a); [| contradiction]. exact IH.
Qed.

Lemma lazy_segment_sound (s g : string) :
  lazy_segment s = Some g ->
  is_segment g = true /\ exists rest, s = g +:+ "/" +:+ rest.
Proof.
  revert g. induction s as [| a s IH]; intros g; [discriminate |].
  change (lazy_segment (String a s))
    with (if is_slash a then Some EmptyString
          else if is_newline a then None else option_map (String a) (lazy_segment s)).
  destruct (is_slash a) eqn:Ea.
  - intros E. injection E as <-. split; [reflexivity |]. exists s.
    apply Ascii.eqb_eq in Ea. now subst a.
  - destruct (is_newline a) eqn:En; [discriminate |].
    destruct (lazy_segment s) as [g' |]; [| discriminate].
    intros E. injection E as <-. destruct (IH g' eq_refl) as (Hseg & rest & ->).
    split; [| now exists rest].
    unfold is_segment in *.
    change (negb (is_slash a) && negb (is_newline a)
            && string_forall (fun a => negb (is_slash a) && negb (is_newline a)) g' = true).
    now rewrite Ea, En, Hseg.
Qed.

Lemma lazy_segment_complete (g rest : string) :
  is_segment g = true -> lazy_segment (g +:+ "/" +:+ rest) = Some g.
Proof.
  unfold is_segment. induction g as [| a g IH]; [reflexivity |].
  change (negb (is_slash a) && negb (is_newline a)
          && string_forall (fun a => negb (is_slash a) && negb (is_newline a)) g = true
          -> lazy_segment (String a (g +:+ "/" +:+ rest)) = Some (String a g)).
  intros E. apply andb_prop in E. destruct E as [E Hg]. apply andb_prop in E.
  destruct E as [Ea En]. apply negb_true_iff in Ea, En.
  change (lazy_segment (String a (g +:+ "/" +:+ rest)))
    with (if is_slash a then Some EmptyString
          else if is_newline a then None
          else option_map (String a) (lazy_segment (g +:+ "/" +:+ rest))).
  now rewrite Ea, En, (IH Hg).
Qed.

Lemma match_tail_sound (m : matcher) (s g : string) :
  match_tail m s = Some g ->
  (match pat_table m with Some t => g = t | None => is_segment g = true end)
  /\ exists rest, s = "/" +:+ pat_keyspace m +:+ "/" +:+ g +:+ "/" +:+ rest.
Proof.
  unfold match_tail.
  destruct (String.prefix ("/" +:+ pat_keyspace m +:+ "/") s) eqn:Ep; [| discriminate].
  apply prefix_split in Ep.
  set (tail := drop_chars (String.length ("/" +:+ pat_keyspace m +:+ "/")) s) in *.
  destruct (pat_table m) as [t |].
  - destruct (String.prefix (t +:+ "/") tail) eqn:Et; [| discriminate].
    intros E. injection E as <-. split; [reflexivity |].
    apply prefix_split in Et. exists (drop_chars (String.length (t +:+ "/")) tail).
    rewrite Ep at 1. rewrite Et at 1.
    rewrite !append_assoc. reflexivity.
  - intros E. destruct (lazy_segment_sound _ _ E) as (Hseg & rest & Er).
    split; [exact Hseg |]. exists rest. rewrite Ep at 1. rewrite Er.
    rewrite !append_assoc. reflexivity.
Qed.

Lemma match_tail_complete (m : matcher) (table rest : string) :
  match pat_table m with Some t => table = t | None => is_segment table = true end ->
  match_tail m ("/" +:+ pat_keyspace m +:+ "/" +:+ table +:+ "/" +:+ rest) = Some table.
Proof.
  intros Ht. unfold match_tail.
  replace ("/" +:+ pat_keyspace m +:+ "/" +:+ table +:+ "/" +:+ rest)
    with (("/" +:+ pat_keyspace m +:+ "/") +:+ table +:+ "/" +:+ rest)
    by (rewrite !append_assoc; reflexivity).
  destruct (prefix_append ("/" +:+ pat_keyspace m +:+ "/") (table +:+ "/" +:+ rest))
    as [-> ->].
  destruct (pat_table m) as [t |].
  - subst t. replace (table +:+ "/" +:+ rest) with ((table +:+ "/") +:+ rest)
      by (rewrite !append_assoc; reflexivity).
    now destruct (prefix_append (table +:+ "/") rest) as [-> _].
  - now apply lazy_segment_complete.
Qed.

Lemma greedy_tail_unfold (m : matcher) (a : ascii) (s : string) :
  greedy_tail m (String a s)
  = if is_newline a then match_tail m (String a s)
    else match greedy_tail m s with
         | Some g => Some g
         | None => match_tail m (String a s)
         end.
Proof. reflexivity. Qed.

Lemma greedy_tail_sound (m : matcher) (s g : string) :
  greedy_tail m s = Some g ->
  exists mid tail, s = mid +:+ tail /\ within_line mid = true /\ match_tail m tail = Some g.
Proof.
  revert g. induction s as [| a s IH]; intros g.
  - intros E. exists "", "". auto.
  - rewrite greedy_tail_unfold.
    assert (Hhere : match_tail m (String a s) = Some g ->
      exists mid tail, String a s = mid +:+ tail /\ within_line mid = true
                       /\ match_tail m tail = Some g).
    { intros E. exists "", (String a s). auto. }
    destruct (is_newline a) eqn:En; [exact Hhere |].
    destruct (greedy_tail m s) as [g' |]; [| exact Hhere].
    intros E. injection E as <-. destruct (IH g' eq_refl) as (mid & tail & -> & Hmid & Ht).
    exists (String a mid), tail. split; [reflexivity |]. split; [| exact Ht].
    unfold within_line in *.
    change (negb (is_newline a) && string_forall (fun a => negb (is_newline a)) mid = true).
    now rewrite En, Hmid.
Qed.

Lemma greedy_tail_here (m : matcher) (s g : string) :
  match_tail m s = Some g -> exists g', greedy_tail m s = Some g'.
Proof.
  intros E. destruct s as [| a s]; [exists g; exact E |].
  rewrite greedy_tail_unfold. destruct (is_newline a); [eauto |].
  destruct (greedy_tail m s); eauto.
Qed.

Lemma greedy_tail_complete (m : matcher) (mid tail g : string) :
  within_line mid = true -> match_tail m tail = Some g ->
  exists g', greedy_tail m (mid +:+ tail) = Some g'.
Proof.
  intros Hmid Ht. unfold within_line in Hmid. induction mid as [| a mid IH].
  - eapply greedy_tail_here, Ht.
  - change (negb (is_newline a) && string_forall (fun a => negb (is_newline a)) mid = true)
      in Hmid.
    apply andb_prop in Hmid. destruct Hmid as [En Hmid]. apply negb_true_iff in En.
    change (String a mid +:+ tail) with (String a (mid +:+ tail)).
    rewrite greedy_tail_unfold, En. destruct (IH Hmid) as [g' ->]. eauto.
Qed.

Lemma match_hosts_sound (m : matcher) (alts : list string) (s : string) (r : groups) :
  match_hosts m alts s = Some r ->
  group1 r ∈ alts /\ group2 r = pat_keyspace m
  /\ exists tail, s = group1 r +:+ tail /\ greedy_tail m tail = Some (group3 r).
Proof.
  induction alts as [| h alts IH]; simpl; [discriminate |].
  assert (Hnext : match_hosts m alts s = Some r ->
    group1 r ∈ h :: alts /\ group2 r = pat_keyspace m
    /\ exists tail, s = group1 r +:+ tail /\ greedy_tail m tail = Some (group3 r)).
  { intros E. destruct (IH E) as (H1 & H2 & H3). repeat split; auto. now right. }
  destruct (String.prefix h s) eqn:Ep; [| exact Hnext].
  destruct (greedy_tail m _) as [g3 |] eqn:Eg; [| exact Hnext].
  intros E. injection E as <-. simpl. split; [now left |]. split; [reflexivity |].
  exists (drop_chars (String.length h) s). split; [now apply prefix_split | exact Eg].
Qed.

Lemma match_hosts_complete (m : matcher) (alts : list string) (h tail g : string) :
  h ∈ alts -> greedy_tail m tail = Some g ->
  exists r, match_hosts m alts (h +:+ tail) = Some r.
Proof.
  intros Hin Hg. induction alts as [| h' alts IH]; [inversion Hin |]. simpl.
  destruct (decide (h' = h)) as [-> | Hne].
  - destruct (prefix_append h tail) as [-> ->]. rewrite Hg. eauto.
  - apply elem_of_cons in Hin. destruct Hin as [-> | Hin]; [contradiction |].
    destruct (IH Hin) as [r Hr].
    destruct (String.prefix h' (h +:+ tail)); [| exists r; exact Hr].
    destruct (greedy_tail m (drop_chars _ _)) as [g3 |]; [| exists r; exact Hr].
    eexists. reflexivity.
Qed.

Lemma search_unfold (m : matcher) (s : string) :
  search m s
  = match match_hosts m (alt_hosts m) s with
    | Some r => Some r
    | None => match s with EmptyString => None | String _ s' => search m s' end
    end.
Proof. destruct s; reflexivity. Qed.

Lemma search_sound (m : matcher) (s : string) (r : groups) :
  search m s = Some r ->
  exists pre, exists tail, s = pre +:+ tail /\ match_hosts m (alt_hosts m) tail = Some r.
Proof.
  induction s as [| a s IH]; rewrite search_unfold.
  - destruct (match_hosts m (alt_hosts m) "") as [r' |] eqn:E; [| discriminate].
    intros E'. injection E' as <-. exists "", "". auto.
  - destruct (match_hosts m (alt_hosts m) (String a s)) as [r' |] eqn:E.
    + intros E'. injection E' as <-. exists "", (String a s). auto.
    + intros E'. destruct (IH E') as (pre & tail & -> & Ht).
      exists (String a pre), tail. auto.
Qed.

Lemma search_complete (m : matcher) (pre tail : string) (r : groups) :
  match_hosts m (alt_hosts m) tail = Some r ->
  exists r', search m (pre +:+ tail) = Some r'.
Proof.
  intros E. induction pre as [| a pre IH].
  - change ("" +:+ tail) with tail. rewrite search_unfold, E. eauto.
  - change (String a pre +:+ tail) with (String a (pre +:+ tail)).
    rewrite search_unfold.
    destruct (match_hosts m (alt_hosts m) (String a (pre +:+ tail))); [eauto | exact IH].
Qed.

Lemma search_decomposes (m : matcher) (s : string) (r : groups) :
  search m s = Some r ->
  exists pre mid rest,
    s = pre +:+ group1 r +:+ mid +:+ "/" +:+ pat_keyspace m +:+ "/"
        +:+ group3 r +:+ "/" +:+ rest
    /\ group1 r ∈ alt_hosts m /\ group2 r = pat_keyspace m /\ within_line mid = true
    /\ match pat_table m with
       | Some t => group3 r = t
       | None => is_segment (group3 r) = true
       end.
Proof.
  intros E. destruct (search_sound _ _ _ E) as (pre & tail & -> & Eh).
  destruct (match_hosts_sound _ _ _ _ Eh) as (H1 & H2 & tail' & -> & Eg).
  destruct (greedy_tail_sound _ _ _ Eg) as (mid & tail'' & -> & Hmid & Et).
  destruct (match_tail_sound _ _ _ Et) as (H3 & rest & ->).
  exists pre, mid, rest. auto.
Qed.

Lemma search_accepts_iff (m : matcher) (s : string) :
  (exists r, search m s = Some r) <-> path_shape m s.
Proof.
  split.
  - intros [r E].
    destruct (search_decomposes m s r E) as (pre & mid & rest & Es & H1 & _ & Hmid & H3).
    exists pre, (group1 r), mid, (group3 r), rest. auto.
  - intros (pre & host & mid & table & rest & -> & Hhost & Hmid & Ht).
    pose proof (match_tail_complete m table rest Ht) as Et.
    destruct (greedy_tail_complete m mid _ _ Hmid Et) as [g Eg].
    destruct (match_hosts_complete m (alt_hosts m) host _ _ Hhost Eg) as [r Er].
    eapply search_complete, Er.
Qed.

(** X15. The matcher accepts exactly the names in which one of the hosts
    occurs and, later on the same line, [/keyspace/], the table and a
    slash follow; with no table given, any run of characters other than a
    slash and a newline stands for the table.  The host need not be a
    whole component of the path, and it need not stand where the data of
    the host is kept.  The groups of an accepted name are a host of the
    list, the keyspace, and the table or that run of characters. *)
Theorem matcher_accepts_the_shape (m : matcher) (s : string) :
  ((exists r, search m s = Some r) <-> path_shape m s)
  /\ (forall r, search m s = Some r ->
        group1 r ∈ alt_hosts m /\ group2 r = pat_keyspace m
        /\ match pat_table m with
           | Some t => group3 r = t
           | None => is_segment (group3 r) = true
           end).
Proof.
  split; [apply search_accepts_iff |].
  intros r E.
  destruct (search_decomposes m s r E) as (pre & mid & rest & Es & H1 & H2 & Hmid & H3).
  auto.
Qed.

Section Destination.
Context `{World}.


End Destination.

End MatcherFacts.

(** ** The files of a restore *)

Section FindFacts.
Import RestoreWorker.






Section Local.
Context `{LocalFiles} `{World}.








End Local.

End FindFacts.

(** ** A population whose sort fails *)

Section FailedSortFacts.
Context `{JsonCodec} `{Clock} `{ObjectStore}.
Import SnapshotCollection.

Lemma for_each_read_manifest_total (bucket_name : string) (ps : list string) :
  (forall p e, p ∈ ps ->
     get_contents_as_string (get_bucket bucket_name) (manifest_path_of p) = Raise e ->
     e = S3ResponseError) ->
  (forall p data e, p ∈ ps ->
     get_contents_as_string (get_bucket bucket_name) (manifest_path_of p) = Ret data ->
     Snapshot.load_manifest_file data bucket_name = Raise e ->
     is_Exception e = true) ->
  forall st0, snapshots (fst st0) <> None ->
    exists st1, for_each ps (read_manifest bucket_name) st0 = (Ret tt, st1).
Proof.
  induction ps as [| p ps IH]; intros Hfetch Hload st0 Hsome; simpl.
  - eexists. reflexivity.
  - unfold bind at 1.
    assert (Hp : exists st1, read_manifest bucket_name p st0 = (Ret tt, st1)
                             /\ snapshots (fst st1) <> None).
    { unfold read_manifest, bind, try_except, request, ret, lift, append_snapshot. simpl.
      fold (manifest_path_of p).
      destruct (get_contents_as_string _ _) as [data | e] eqn:Ef; simpl.
      - destruct (Snapshot.load_manifest_file data bucket_name) as [s | e'] eqn:El; simpl.
        + destruct (snapshots (fst st0)) as [l |]; [| contradiction]. simpl.
          eexists. split; [reflexivity | discriminate].
        + rewrite (Hload p data e' ltac:(now left) Ef El). eexists.
          split; [reflexivity | exact Hsome].
      - rewrite (Hfetch p e ltac:(now left) Ef). simpl. eexists.
        split; [reflexivity | exact Hsome]. }
    destruct Hp as (st1 & -> & Hsome1). apply IH; [| | exact Hsome1].
    + intros q e Hq. apply Hfetch. now right.
    + intros q data e Hq. apply Hload. now right.
Qed.

Lemma res_map_raises {A B : Type} (f : A -> res B) (l : list A) (x : A) :
  x ∈ l -> ~ returns (f x) -> exists e, res_map f l = Raise e.
Proof.
  intros Hin Hx. induction l as [| y l IH]; [inversion Hin |]. simpl.
  destruct (f y) as [b |] eqn:Ey; [| simpl; eauto]. simpl.
  apply elem_of_cons in Hin. destruct Hin as [-> | Hin].
  - destruct Hx. exists b. exact Ey.
  - destruct (IH Hin) as [e ->]. simpl. eauto.
Qed.

(** X21. When two or more snapshots decode and the name of one of them
    does not parse as a timestamp, the population raises out of the sort
    after all the fetches, and leaves in the cache the decoded snapshots
    in the order of the listing.  The cache is then not empty: a caller
    that catches the exception and reads the collection again gets this
    unsorted list, and no request is sent any more. *)
Theorem failed_sort_leaves_the_listing_order (st : state) (names : list string)
    (bad : Snapshot.t) :
  let bucket_name := s3_bucket (fst st) in
  let prefix := listing_prefix (fst st) in
  let found := omap (decoded bucket_name) (entries prefix names) in
  cached (fst st) = false ->
  list_names (get_bucket bucket_name) prefix = Ret names ->
  (forall p e, p ∈ entries prefix names ->
     get_contents_as_string (get_bucket bucket_name) (manifest_path_of p) = Raise e ->
     e = S3ResponseError) ->
  (forall p data e, p ∈ entries prefix names ->
     get_contents_as_string (get_bucket bucket_name) (manifest_path_of p) = Ret data ->
     Snapshot.load_manifest_file data bucket_name = Raise e ->
     is_Exception e = true) ->
  (2 <= length found)%nat ->
  bad ∈ found ->
  ~ returns (Snapshot.unix_time_name bad) ->
  exists e st1,
    _read_s3 st = (Raise e, st1)
    /\ snapshots (fst st1) = Some found
    /\ snd st1 = (snd st ++ S3List bucket_name prefix
                    :: map (fun p => S3Get bucket_name (manifest_path_of p))
                           (entries prefix names))%list
    /\ __iter__ st1 = (Ret found, st1).
Proof.
  intros bucket_name prefix found Hc Hlist Hfetch Hload Hlen Hbad Hparse.
  destruct (for_each_read_manifest_total bucket_name (entries prefix names) Hfetch Hload
              (mk (s3_bucket (fst st)) (base_path (fst st)) (Some []),
               (snd st ++ [S3List bucket_name prefix])%list))
    as [st1 Eloop]; [discriminate |].
  pose proof (fun Hx => for_each_read_manifest_returns _ _ _ _ [] Hx Eloop) as Hr.
  destruct (Hr eq_refl) as (Hsn & Hlg & _). simpl in Hsn, Hlg. fold found in Hsn.
  assert (Hsort : exists e, sorted_reverse found = Raise e).
  { unfold sorted_reverse. destruct (Nat.ltb_spec (length found) 2) as [Hlt | _]; [lia |].
    destruct (res_map_raises Snapshot.unix_time_name found bad Hbad Hparse) as [e ->].
    simpl. eauto. }
  destruct Hsort as [e Esort].
  assert (Erun : _read_s3 st = (Raise e, st1)).
  { unfold _read_s3, bind, self_, request, set_snapshots, lift. simpl. rewrite Hc.
    fold (listing_prefix (fst st)). fold prefix. fold bucket_name. rewrite Hlist.
    match goal with |- context [for_each ?ps ?f ?s0] =>
      change (for_each ps f s0)
        with (for_each (entries prefix names) (read_manifest bucket_name)
                (mk (s3_bucket (fst st)) (base_path (fst st)) (Some []),
                 (snd st ++ [S3List bucket_name prefix])%list)) end.
    rewrite Eloop, Hsn. simpl. fold found. now rewrite Esort. }
  assert (Hcached : cached (fst st1) = true).
  { unfold cached. rewrite Hsn. destruct found; [simpl in Hlen; lia | reflexivity]. }
  exists e, st1. split; [exact Erun |]. split; [exact Hsn |]. split.
  - rewrite Hlg, <- app_assoc. reflexivity.
  - unfold __iter__, bind, self_, ret. rewrite (read_s3_cached st1 Hcached). now rewrite Hsn.
Qed.

End FailedSortFacts.

(** ** The schema of a keyspace *)

Section SchemaFacts.
Context `{BackupWorker.Cluster} `{JsonCodec}.
Import BackupWorker.

Lemma str_split_cons_char (c a : ascii) (s : string) :
  str_split c (String a s)
  = if Ascii.eqb a c then "" :: str_split c s
    else match str_split c s with
         | [] => [String a ""]
         | p :: ps => String a p :: ps
         end.
Proof. reflexivity. Qed.

Lemma free_of_cons (c a : ascii) (s : string) :
  free_of c (String a s) = negb (Ascii.eqb a c) && free_of c s.
Proof. reflexivity. Qed.

Lemma str_split_free (c : ascii) (x : string) :
  free_of c x = true -> str_split c x = [x].
Proof.
  induction x as [| a x IH]; [reflexivity |].
  rewrite free_of_cons, str_split_cons_char. intros E. apply andb_prop in E.
  destruct E as [Ea Ex]. apply negb_true_iff in Ea. now rewrite Ea, (IH Ex).
Qed.

Lemma str_split_piece (c : ascii) (x rest : string) :
  free_of c x = true ->
  str_split c (x +:+ String c rest) = x :: str_split c rest.
Proof.
  induction x as [| a x IH].
  - intros _. change ("" +:+ String c rest) with (String c rest).
    now rewrite str_split_cons_char, Ascii.eqb_refl.
  - rewrite free_of_cons. intros E. apply andb_prop in E.
    destruct E as [Ea Ex]. apply negb_true_iff in Ea.
    change (String a x +:+ String c rest) with (String a (x +:+ String c rest)).
    now rewrite str_split_cons_char, Ea, (IH Ex).
Qed.

Lemma str_split_pieces_free (c : ascii) (s : string) :
  Forall (fun p => free_of c p = true) (str_split c s).
Proof.
  induction s as [| a s IH]; [repeat constructor |].
  rewrite str_split_cons_char. destruct (Ascii.eqb a c) eqn:Ea.
  - constructor; [reflexivity | exact IH].
  - destruct (str_split c s) as [| p ps]; [repeat constructor; now rewrite free_of_cons, Ea |].
    inversion IH as [| ? ? Hp Hps]; subst. constructor; [| exact Hps].
    now rewrite free_of_cons, Ea, Hp.
Qed.

Lemma str_split_join (c : ascii) (l : list string) :
  l <> [] ->
  Forall (fun p => free_of c p = true) l ->
  str_split c (str_join (String c "") l) = l.
Proof.
  induction l as [| x l IH]; [contradiction |]. intros _ Hall.
  inversion Hall as [| ? ? Hx Hl]; subst. destruct l as [| y l].
  - now apply str_split_free.
  - change (str_join (String c "") (x :: y :: l))
      with (x +:+ String c "" +:+ str_join (String c "") (y :: l)).
    change (String c "" +:+ str_join (String c "") (y :: l))
      with (String c (str_join (String c "") (y :: l))).
    rewrite str_split_piece by exact Hx. f_equal. apply IH; [discriminate | exact Hl].
Qed.

(** X22. [get_keyspace_schema] runs one remote command and nothing else.
    When the command fails so does the call; when it prints an output,
    the schema returned is made of the lines of the output that start
    with [create], [use] or a space, in their order and none else: split
    at the newlines, it gives back exactly these lines.  It is empty when
    no line of the output is one of these. *)
Theorem get_keyspace_schema_keeps_schema_lines
    (self : t) (keyspace : option string) (history : list action) :
  exists cmd,
    snd (get_keyspace_schema self keyspace history) = (history ++ [RunRemotely cmd])%list
    /\ (forall e, respond history (RunRemotely cmd) = Raise e ->
          fst (get_keyspace_schema self keyspace history) = Raise e)
    /\ (forall output, respond history (RunRemotely cmd) = Ret output ->
          let kept := filter (fun l => schema_line l) (str_split "010" output) in
          exists schema,
            fst (get_keyspace_schema self keyspace history) = Ret schema
            /\ (kept = [] -> schema = "")
            /\ (kept <> [] -> str_split "010" schema = kept)).
Proof.
  unfold get_keyspace_schema, bind, run_remotely, act, ret.
  match goal with |- context [respond history (RunRemotely ?c)] => exists c end.
  split; [| split].
  - destruct (respond history _); reflexivity.
  - intros e ->. reflexivity.
  - intros output Hout. rewrite Hout. cbv zeta.
    set (kept := filter (fun l => schema_line l) (str_split "010" output)).
    exists (str_join nl kept). split; [reflexivity |]. split.
    + intros ->. reflexivity.
    + intros Hne. apply (str_split_join "010"); [exact Hne |].
      unfold kept. apply Forall_forall. intros l Hl. apply list_elem_of_filter in Hl.
      destruct Hl as [_ Hl].
      pose proof (str_split_pieces_free "010" output) as Hfree.
      rewrite Forall_forall in Hfree. now apply Hfree.
Qed.

End SchemaFacts.

(** ** The further statements at concrete inputs *)

Section FurtherWitnesses.
Local Existing Instance PlainJson.codec.
Local Existing Instance UtcClock.clock.

Lemma population_keeps_what_decodes_witness :
  let st' := snd (@SnapshotCollection._read_s3 _ _ Demo.store Demo.new_collection) in
  SnapshotCollection.snapshots (fst st') = Some [Demo.jul_cf9; Demo.jun; Demo.jan]
  /\ exists names l,
       list_names (@get_bucket Demo.store "backups") "cassandra/" = Ret names
       /\ SnapshotCollection.snapshots (fst st') = Some l
       /\ Permutation l (omap (@decoded _ Demo.store "backups") (entries "cassandra/" names))
       /\ snd st'
          = ([] ++ SnapshotCollection.S3List "backups" "cassandra/"
                :: map (fun p => SnapshotCollection.S3Get "backups" (manifest_path_of p))
                       (entries "cassandra/" names))%list.
Proof.
  intros st'. split; [vm_compute; reflexivity |].
  apply (@population_keeps_what_decodes _ _ Demo.store Demo.new_collection st').
  - reflexivity.
  - vm_compute. reflexivity.
Defined.

Lemma population_skips_bad_manifests_witness :
  fst (@SnapshotCollection._read_s3 _ _ Demo.store Demo.new_collection) = Ret tt.
Proof.
  apply (@population_skips_bad_manifests _ _ Demo.store Demo.new_collection
           ["cassandra/"; "cassandra/20230101000000/"; "cassandra/notes/";
            "cassandra/20230701000000/"; "cassandra/tmp/"; "cassandra/20230601120000/"]).
  - reflexivity.
  - reflexivity.
  - intros p e _. simpl.
    repeat (destruct (String.eqb _ _); [discriminate |]). congruence.
  - intros p data e _. simpl.
    repeat (destruct (String.eqb _ _);
            [intros Hd; injection Hd as <-; vm_compute; intros Hl;
             first [discriminate Hl | injection Hl as <-; reflexivity] |]).
    discriminate.
  - right. intros s Hs. vm_compute in Hs.
    repeat (apply elem_of_cons in Hs; destruct Hs as [-> | Hs];
            [eexists; vm_compute; reflexivity |]).
    inversion Hs.
Defined.

Lemma get_latest_is_the_head_witness :
  @SnapshotCollection.get_latest _ _ Demo.store Demo.new_collection
  = (Ret Demo.jul_cf9, snd (@SnapshotCollection._read_s3 _ _ Demo.store Demo.new_collection)).
Proof.
  assert (E : @SnapshotCollection._read_s3 _ _ Demo.store Demo.new_collection
              = (Ret tt, snd (@SnapshotCollection._read_s3 _ _ Demo.store Demo.new_collection)))
    by (vm_compute; reflexivity).
  assert (El : SnapshotCollection.snapshots
                 (fst (snd (@SnapshotCollection._read_s3 _ _ Demo.store Demo.new_collection)))
               = Some [Demo.jul_cf9; Demo.jun; Demo.jan]) by (vm_compute; reflexivity).
  pose proof (@get_latest_is_the_head _ _ Demo.store _ _ E) as W.
  rewrite El in W. exact (proj1 W).
Defined.

Lemma get_snapshot_by_name_finds_the_first_witness :
  let run := @SnapshotCollection.get_snapshot_by_name _ _ Demo.store (PyStr "20230601120000")
               Demo.new_collection in
  run = (Ret (Some Demo.jun), snd run)
  /\ exists l, SnapshotCollection.snapshots (fst (snd run)) = Some l
       /\ exists i, l !! i = Some Demo.jun
            /\ Snapshot.name Demo.jun = PyStr "20230601120000"
            /\ forall j s', (j < i)%nat -> l !! j = Some s' ->
                 Snapshot.name s' <> PyStr "20230601120000".
Proof.
  intros run.
  assert (E : run = (Ret (Some Demo.jun), snd run)) by (vm_compute; reflexivity).
  split; [exact E |].
  exact (@get_snapshot_by_name_finds_the_first _ _ Demo.store _ _ _ _ E).
Defined.

Lemma quiet_returns (h : list BackupWorker.action) (a : BackupWorker.action) :
  returns (@BackupWorker.respond Scenario.quiet h a).
Proof. destruct a; eexists; reflexivity. Qed.

Lemma snapshot_publishes_only_after_upload_witness :
  let manifest :=
    BackupWorker.WriteOnS3 "backups" "cassandra/20230101000000/manifest.json"
      (Demo.manifest Demo.jan) in
  manifest ∈ snd (@BackupWorker.snapshot Scenario.quiet _ Demo.backup_worker Demo.jan
                    true false false [])
  /\ exists prepared,
       @BackupWorker.prepare Scenario.quiet Demo.backup_worker Demo.jan false false []
       = (Ret tt, prepared)
       /\ returns (@BackupWorker.respond Scenario.quiet prepared
                     (BackupWorker.Execute (BackupWorker.NodeStartBackup Demo.jan false)))
       /\ returns (@BackupWorker.respond Scenario.quiet
                     (prepared ++ [BackupWorker.Execute
                                     (BackupWorker.NodeStartBackup Demo.jan false)])%list
                     (BackupWorker.Execute (BackupWorker.UploadNodeBackups Demo.jan false))).
Proof.
  intros manifest.
  assert (Hin : manifest ∈ drop (length (@nil BackupWorker.action))
                  (snd (@BackupWorker.snapshot Scenario.quiet _ Demo.backup_worker Demo.jan
                          true false false []))).
  { vm_compute. repeat constructor. }
  split; [exact Hin |].
  destruct (@snapshot_publishes_only_after_upload Scenario.quiet _ Demo.backup_worker
              Demo.jan true false false [] manifest I Hin) as (prepared & E & Hs & Hu & _).
  exists prepared. auto.
Defined.

Lemma published_manifest_is_read_back_witness :
  BackupWorker.WriteOnS3 "backups" "cassandra/20230101000000/manifest.json"
    (Demo.manifest Demo.jan)
  ∈ snd (@BackupWorker.snapshot Scenario.quiet _ Demo.backup_worker Demo.jan false true true [])
  /\ @decoded _ Scenario.written_store "backups" "cassandra/20230101000000" = Some Demo.jan.
Proof.
  destruct (@published_manifest_is_read_back Scenario.quiet PlainJson.codec Scenario.written_store
              Demo.backup_worker Demo.jan false true true [] "20230101000000" "cassandra"
              (Demo.manifest Demo.jan) eq_refl eq_refl quiet_returns ltac:(reflexivity)
              ltac:(vm_compute; reflexivity)) as [Hw Hd].
  split; [exact Hw |]. apply Hd.
  intros b p c Hin. vm_compute in Hin.
  repeat (apply elem_of_cons in Hin; destruct Hin as [Hin | Hin];
          [first [discriminate Hin | injection Hin as -> -> ->; vm_compute; reflexivity] |]).
  inversion Hin.
Defined.

Lemma run_backup_flags_need_new_snapshot_witness :
  @Main.run_backup _ _ Demo.store Scenario.quiet Scenario.august
    Scenario.incremental_args ([], [])
  = @Main.run_backup _ _ Demo.store Scenario.quiet Scenario.august
      (without_deletion_flags Scenario.incremental_args) ([], []).
Proof.
  exact (proj1 (@run_backup_flags_need_new_snapshot _ _ Demo.store Scenario.quiet
                  Scenario.august Scenario.incremental_args ([], []) eq_refl)).
Defined.

Lemma run_backup_updates_the_compatible_snapshot_witness :
  let lookup := @registry_lookup _ _ Demo.store Scenario.incremental_args [] in
  let run := @Main.run_backup _ _ Demo.store Scenario.quiet Scenario.august
               Scenario.incremental_args ([], []) in
  fst lookup = Ret (Some Demo.jun)
  /\ compatible Demo.jun (PyList [PyStr "h1"; PyStr "h2"]) (PyStr "ks1") (PyStr "")
  /\ fst (snd run) = snd (snd lookup)
  /\ exists rest, snd (snd run) = ([] ++ rest)%list /\ Forall (incremental_action Demo.jun) rest.
Proof.
  intros lookup run.
  assert (E : lookup = (Ret (Some Demo.jun), (fst (snd lookup), snd (snd lookup))))
    by (vm_compute; reflexivity).
  destruct (@run_backup_updates_the_compatible_snapshot _ _ Demo.store Scenario.quiet
              Scenario.august Scenario.incremental_args ([], []) Demo.jun _ _ eq_refl E)
    as (Hc & _ & Hlog & Hrest).
  split; [now rewrite E |]. auto.
Defined.

Lemma run_backup_new_snapshot_skips_the_registry_witness :
  let run := @Main.run_backup _ _ Demo.store Scenario.quiet Scenario.august
               Scenario.full_args ([], []) in
  fst (snd run) = []
  /\ exists data,
       BackupWorker.WriteOnS3 "backups" "cassandra/20230801000000/manifest.json" data
       ∈ snd (snd run).
Proof.
  intros run.
  destruct (@run_backup_new_snapshot_skips_the_registry _ _ Demo.store Scenario.quiet
              Scenario.august Scenario.full_args ([], []) eq_refl) as (Hlog & _ & _ & Hw).
  split; [exact Hlog |].
  eexists. apply (Hw quiet_returns). reflexivity.
Defined.

Lemma clear_node_backups_of_a_table_witness :
  @BackupWorker.clear_node_backups Demo.node Demo.backup_worker Scenario.one_table []
  = (Ret tt, [delete_in "/var/lib/cassandra/data/ks2/cf1/backups"]).
Proof.
  exact (@clear_node_backups_of_a_table Demo.node Demo.backup_worker Scenario.one_table
           "ks1,ks2" "cf1" ["ks1"] "ks2" [] eq_refl ltac:(discriminate) eq_refl eq_refl
           ltac:(discriminate)).
Defined.





Lemma failed_sort_leaves_the_listing_order_witness :
  exists e st1,
    @SnapshotCollection._read_s3 _ _ Scenario.named_by_hand Demo.new_collection = (Raise e, st1)
    /\ SnapshotCollection.snapshots (fst st1) = Some [Demo.jan; Scenario.latest]
    /\ @SnapshotCollection.__iter__ _ _ Scenario.named_by_hand st1
       = (Ret [Demo.jan; Scenario.latest], st1).
Proof.
  assert (Ef : omap (@decoded _ Scenario.named_by_hand
                       (SnapshotCollection.s3_bucket (fst Demo.new_collection)))
                 (entries (listing_prefix (fst Demo.new_collection)) Scenario.listed)
               = [Demo.jan; Scenario.latest]) by (vm_compute; reflexivity).
  destruct (@failed_sort_leaves_the_listing_order _ _ Scenario.named_by_hand
              Demo.new_collection Scenario.listed Scenario.latest)
    as (e & st1 & E & Hs & _ & Hi).
  - reflexivity.
  - reflexivity.
  - intros p e _. simpl.
    repeat (destruct (String.eqb _ _); [discriminate |]). congruence.
  - intros p data e _. simpl.
    repeat (destruct (String.eqb _ _);
            [intros Hd; injection Hd as <-; vm_compute; intros Hl; discriminate Hl |]).
    discriminate.
  - rewrite Ef. simpl. lia.
  - rewrite Ef. apply elem_of_cons. right. apply elem_of_cons. now left.
  - intros [t Ht]. vm_compute in Ht. discriminate Ht.
  - rewrite Ef in Hs, Hi. exists e, st1. auto.
Defined.

Lemma get_keyspace_schema_keeps_schema_lines_witness :
  exists cmd schema,
    @BackupWorker.get_keyspace_schema Scenario.schema_node Demo.backup_worker (Some "ks1") []
    = (Ret schema, [BackupWorker.RunRemotely cmd])
    /\ str_split "010" schema
       = ["create keyspace ks1"; "  with placement_strategy"; "use ks1;"].
Proof.
  destruct (@get_keyspace_schema_keeps_schema_lines Scenario.schema_node Demo.backup_worker
              (Some "ks1") []) as (cmd & Hlog & _ & Hout).
  destruct (Hout _ eq_refl) as (schema & Hs & _ & Hkept).
  exists cmd, schema. split.
  - apply injective_projections; [exact Hs | exact Hlog].
  - rewrite Hkept by (vm_compute; discriminate). vm_compute. reflexivity.
Defined.

End FurtherWitnesses.
